(** * AMINA chat client: conversation model, streaming decoder and
      chat controller of [src/App.tsx], embedded in Rocq.

    The React component [App] keeps its state in [useState] hooks and
    changes it through setters.  A handler is a JavaScript closure: it
    reads the hook values of the render that created it and queues updates
    that React applies, in order, to the live state.  The embedding keeps
    both: every handler takes the render it closes over (the values it
    reads) and the live state (the value the queued updates are applied
    to).

    Strings are Rocq strings of 8-bit characters standing for JavaScript
    code units below 256.  A clock reading ([Date.now()], [new Date()]) is
    an integer number of milliseconds handed to the operation that reads
    the clock; the reads made inside one call are taken as one reading. *)

From Stdlib Require Import Ascii QArith_base.
From stdpp Require Import base numbers list strings pretty.

Open Scope Z_scope.
Open Scope string_scope.
Open Scope list_scope.

#[local] Set Warnings "-register-all".

(** ** Data model (App.tsx, lines 5-17) *)

Inductive Sender := user | llm.

Record Message := mkMessage {
  text : string;
  sender : Sender;
  imageUrl : option string
}.

Record Conversation := mkConversation {
  id : string;
  title : string;
  messages : list Message;
  createdAt : Z;
  updatedAt : Z
}.

Global Instance Sender_eq_dec : EqDecision Sender.
Proof. solve_decision. Defined.

Global Instance Message_eq_dec : EqDecision Message.
Proof. solve_decision. Defined.

Global Instance Conversation_eq_dec : EqDecision Conversation.
Proof. solve_decision. Defined.

(** ** Hook state of the component (lines 20-31).

    [st_messages] is the hook [messages] (the visible message list); the
    other fields carry the name of their hook.  The hooks [isDarkMode] and
    [isLoading] take no part in the conversation logic and are left out. *)

Record State := mkState {
  st_messages : list Message;
  st_inputText : string;
  st_selectedImage : option string;
  st_imagePreviewUrl : option string;
  st_isStreaming : bool;
  st_conversations : list Conversation;
  st_currentConversationId : option string;
  st_isSidebarOpen : bool
}.

Definition initialState : State :=
  mkState [] "" None None false [] None false.

(** Setters.  [setX v] is the functional form [setX (fun _ => v)]. *)

Definition setMessages (f : list Message -> list Message) (s : State) : State :=
  mkState (f (st_messages s)) (st_inputText s) (st_selectedImage s)
    (st_imagePreviewUrl s) (st_isStreaming s) (st_conversations s)
    (st_currentConversationId s) (st_isSidebarOpen s).

Definition setInputText (v : string) (s : State) : State :=
  mkState (st_messages s) v (st_selectedImage s)
    (st_imagePreviewUrl s) (st_isStreaming s) (st_conversations s)
    (st_currentConversationId s) (st_isSidebarOpen s).

Definition setSelectedImage (v : option string) (s : State) : State :=
  mkState (st_messages s) (st_inputText s) v
    (st_imagePreviewUrl s) (st_isStreaming s) (st_conversations s)
    (st_currentConversationId s) (st_isSidebarOpen s).

Definition setImagePreviewUrl (v : option string) (s : State) : State :=
  mkState (st_messages s) (st_inputText s) (st_selectedImage s)
    v (st_isStreaming s) (st_conversations s)
    (st_currentConversationId s) (st_isSidebarOpen s).

Definition setIsStreaming (v : bool) (s : State) : State :=
  mkState (st_messages s) (st_inputText s) (st_selectedImage s)
    (st_imagePreviewUrl s) v (st_conversations s)
    (st_currentConversationId s) (st_isSidebarOpen s).

Definition setConversations (f : list Conversation -> list Conversation)
    (s : State) : State :=
  mkState (st_messages s) (st_inputText s) (st_selectedImage s)
    (st_imagePreviewUrl s) (st_isStreaming s) (f (st_conversations s))
    (st_currentConversationId s) (st_isSidebarOpen s).

Definition setCurrentConversationId (v : option string) (s : State) : State :=
  mkState (st_messages s) (st_inputText s) (st_selectedImage s)
    (st_imagePreviewUrl s) (st_isStreaming s) (st_conversations s)
    v (st_isSidebarOpen s).

Definition setIsSidebarOpen (v : bool) (s : State) : State :=
  mkState (st_messages s) (st_inputText s) (st_selectedImage s)
    (st_imagePreviewUrl s) (st_isStreaming s) (st_conversations s)
    (st_currentConversationId s) v.

(** ** JavaScript values of type [string | null] *)

(** Truthiness: [null] and the empty string are falsy. *)
Definition truthy (o : option string) : bool :=
  match o with
  | Some s => negb (String.eqb s "")
  | None => false
  end.

(** [a === b] on [string | null]. *)
Definition strict_eq (a b : option string) : bool :=
  bool_decide (a = b).

(** ** Conversation model (lines 424-480) *)

Definition placeholderTitle : string := "New Conversation".

(** [generateConversationTitle] (lines 424-428). *)
Definition generateConversationTitle (firstMessage : string) : string :=
  if (30 <? String.length firstMessage)%nat
  then String.substring 0 30 firstMessage +:+ "..."
  else firstMessage.

(** [createNewConversation] (lines 430-443): the new id is
    [Date.now().toString()], the decimal numeral of the clock reading.
    Returns the new id together with the live state after the three queued
    updates. *)
Definition newConversation (now : Z) : Conversation :=
  mkConversation (pretty now) placeholderTitle [] now now.

Definition createNewConversation (now : Z) (s : State) : string * State :=
  let newId := pretty now in
  let s1 := setConversations (fun prev => newConversation now :: prev) s in
  let s2 := setCurrentConversationId (Some newId) s1 in
  let s3 := setMessages (fun _ => []) s2 in
  (newId, s3).

(** [selectConversation] (lines 445-452): the lookup and the stored
    messages come from the render [r] the handler closes over. *)
Definition selectConversation (r : State) (conversationId : string)
    (s : State) : State :=
  match find (fun c => String.eqb (id c) conversationId) (st_conversations r) with
  | Some conversation =>
      setIsSidebarOpen false
        (setMessages (fun _ => messages conversation)
           (setCurrentConversationId (Some conversationId) s))
  | None => s
  end.

(** The body of the [map] callback of [updateCurrentConversation]
    (lines 458-468) for a conversation whose id matches. *)
Definition updatedConversation (now : Z) (newMessages : list Message)
    (conv : Conversation) : Conversation :=
  mkConversation (id conv)
    (match newMessages with
     | m0 :: _ =>
         if String.eqb (title conv) placeholderTitle
         then generateConversationTitle (text m0)
         else title conv
     | [] => title conv
     end)
    newMessages (createdAt conv) now.

(** [updateCurrentConversation] (lines 454-472): the id tested and
    compared is the [currentConversationId] of the render [r]. *)
Definition updateCurrentConversation (r : State) (now : Z)
    (newMessages : list Message) (s : State) : State :=
  if truthy (st_currentConversationId r) then
    setConversations
      (map (fun conv =>
              if strict_eq (Some (id conv)) (st_currentConversationId r)
              then updatedConversation now newMessages conv
              else conv))
      s
  else s.

(** [deleteConversation] (lines 474-480). *)
Definition deleteConversation (r : State) (conversationId : string)
    (s : State) : State :=
  let s1 :=
    setConversations
      (filter (fun c => id c ≠ conversationId)) s in
  if strict_eq (st_currentConversationId r) (Some conversationId)
  then setMessages (fun _ => []) (setCurrentConversationId None s1)
  else s1.

(** ** Persistence in [localStorage] (lines 64-118)

    Two keys are used.  The text under ["conversations"] is kept as what
    [JSON.parse] and the date revival of lines 71-77 make of it: a
    conversation list, or [Unreadable] when the parse throws.  An absent
    key and an empty text are both falsy for the guards of lines 69 and
    88; they are [None]. *)

Inductive StoredList :=
| Unreadable
| Serialized (l : list Conversation).

Record Storage := mkStorage {
  ls_conversations : option StoredList;
  ls_currentConversationId : option string
}.

(** The load effect (lines 65-102), as the updates it queues on [s]. *)
Definition loadConversations (st : Storage) (s : State) : State :=
  let savedConversations := ls_conversations st in
  let savedCurrentId := ls_currentConversationId st in
  let s1 :=
    match savedConversations with
    | Some (Serialized conversationsWithDates) =>
        setConversations (fun _ => conversationsWithDates) s
    | Some Unreadable => s
    | None => s
    end in
  if truthy savedCurrentId then
    let s2 := setCurrentConversationId savedCurrentId s1 in
    match savedConversations with
    | Some (Serialized parsedConversations) =>
        match find (fun c => strict_eq (Some (id c)) savedCurrentId)
                parsedConversations with
        | Some currentConv => setMessages (fun _ => messages currentConv) s2
        | None => s2
        end
    | Some Unreadable => s2
    | None => s2
    end
  else s1.

(** The save effect of lines 105-109. *)
Definition saveConversations (s : State) (st : Storage) : Storage :=
  if (0 <? length (st_conversations s))%nat
  then mkStorage (Some (Serialized (st_conversations s)))
         (ls_currentConversationId st)
  else st.

(** The save effect of lines 112-118. *)
Definition saveCurrentConversationId (s : State) (st : Storage) : Storage :=
  if truthy (st_currentConversationId s)
  then mkStorage (ls_conversations st) (st_currentConversationId s)
  else mkStorage (ls_conversations st) None.

(** Both save effects, in the order the component declares them. *)
Definition saveEffects (s : State) (st : Storage) : Storage :=
  saveCurrentConversationId s (saveConversations s st).

(** The effects React runs after the render that takes the hooks from [s]
    to [s']: an effect runs when its dependency changed.  The array in
    [conversations] is a new one exactly when [setConversations] was
    called ([conversationsSet]); the id is compared by value. *)
Definition effectsAfterRender (conversationsSet : bool) (s s' : State)
    (st : Storage) : Storage :=
  let st1 := if conversationsSet then saveConversations s' st else st in
  if strict_eq (st_currentConversationId s') (st_currentConversationId s)
  then st1
  else saveCurrentConversationId s' st1.

(** The component together with the browser storage. *)
Record World := mkWorld {
  state : State;
  storage : Storage
}.

(** Mounting: the load effect queues its updates, the save effects of the
    first render see the initial hook values, and the render that applies
    the loaded values follows. *)
Definition mount (st : Storage) : World :=
  let s0 := initialState in
  let s1 := loadConversations st s0 in
  let loaded :=
    match ls_conversations st with
    | Some (Serialized _) => true
    | _ => false
    end in
  mkWorld s1 (effectsAfterRender loaded s0 s1 (saveEffects s0 st)).

(** The operations of the conversation model as the interface calls
    them: the sidebar handlers belong to the current render; an update is
    called by [handleSubmit] from the render [r] it was created in. *)
Inductive Action :=
| NewChat (now : Z)
| SelectChat (conversationId : string)
| DeleteChat (conversationId : string)
| UpdateFrom (r : State) (now : Z) (newMessages : list Message).

Definition act (a : Action) (s : State) : State :=
  match a with
  | NewChat now => snd (createNewConversation now s)
  | SelectChat conversationId => selectConversation s conversationId s
  | DeleteChat conversationId => deleteConversation s conversationId s
  | UpdateFrom r now newMessages => updateCurrentConversation r now newMessages s
  end.

(** Whether the action calls [setConversations]. *)
Definition setsConversations (a : Action) : bool :=
  match a with
  | NewChat _ => true
  | SelectChat _ => false
  | DeleteChat _ => true
  | UpdateFrom r _ _ => truthy (st_currentConversationId r)
  end.

Definition commit (a : Action) (w : World) : World :=
  let s' := act a (state w) in
  mkWorld s' (effectsAfterRender (setsConversations a) (state w) s' (storage w)).

Definition run (actions : list Action) (w : World) : World :=
  foldl (fun w a => commit a w) w actions.

(** ** [String.prototype.trim] on the modelled alphabet *)

Definition isWhiteSpace (c : Ascii.ascii) : bool :=
  let n := Ascii.nat_of_ascii c in
  ((9 <=? n) && (n <=? 13) || (n =? 32) || (n =? 160))%nat.

Fixpoint trimStart (s : string) : string :=
  match s with
  | String c rest => if isWhiteSpace c then trimStart rest else s
  | EmptyString => EmptyString
  end.

Fixpoint trimEnd (s : string) : string :=
  match s with
  | String c rest =>
      match trimEnd rest with
      | EmptyString => if isWhiteSpace c then EmptyString else String c EmptyString
      | rest' => String c rest'
      end
  | EmptyString => EmptyString
  end.

Definition trim (s : string) : string := trimEnd (trimStart s).

(** Truthiness of a string. *)
Definition nonEmpty (s : string) : bool := negb (String.eqb s "").

(** ** JSON values and the JavaScript operations applied to them

    What [JSON.parse] returns.  Numbers are the integers; a number with a
    fractional part is outside the model. *)

Inductive json :=
| JNull
| JBool (b : bool)
| JNum (n : Z)
| JStr (s : string)
| JArr (elems : list json)
| JObj (members : list (string * json)).

(** Own property [k] of an object built by [JSON.parse]: of two members
    with the same key the later one wins. *)
Fixpoint lookupMember (k : string) (members : list (string * json))
    : option json :=
  match members with
  | [] => None
  | (k', v) :: rest =>
      match lookupMember k rest with
      | Some v' => Some v'
      | None => if String.eqb k' k then Some v else None
      end
  end.

(** [v.k] for a value [v] that is neither [null] nor [undefined] and a key
    that no prototype defines ([choices], [delta], [content], [error]);
    [None] is [undefined]. *)
Definition getProp (k : string) (v : json) : option json :=
  match v with
  | JObj members => lookupMember k members
  | _ => None
  end.

(** [v[0]] for a value [v] that is neither [null] nor [undefined]. *)
Definition getIndex0 (v : json) : option json :=
  match v with
  | JArr (x :: _) => Some x
  | JStr (String c _) => Some (JStr (String c EmptyString))
  | JObj members => lookupMember "0" members
  | _ => None
  end.

(** Optional chaining [x?.p]: [undefined] when [x] is [null] or
    [undefined]. *)
Definition optChain (p : json -> option json) (x : option json)
    : option json :=
  match x with
  | None => None
  | Some JNull => None
  | Some v => p v
  end.

(** [parsed.choices?.[0]?.delta?.content] (line 302).  The outer [None] is
    the [TypeError] of reading [choices] of [null]. *)
Definition deltaContent (parsed : json) : option (option json) :=
  match parsed with
  | JNull => None
  | _ =>
      Some (optChain (getProp "content")
              (optChain (getProp "delta")
                 (optChain getIndex0 (getProp "choices" parsed))))
  end.

(** [ToBoolean]; [None] is [undefined]. *)
Definition toBoolean (x : option json) : bool :=
  match x with
  | None => false
  | Some JNull => false
  | Some (JBool b) => b
  | Some (JNum n) => negb (n =? 0)%Z
  | Some (JStr s) => nonEmpty s
  | Some (JArr _) => true
  | Some (JObj _) => true
  end.

(** [Array.prototype.join(",")] over already converted elements. *)
Fixpoint joinComma (l : list string) : string :=
  match l with
  | [] => ""
  | [x] => x
  | x :: rest => x +:+ "," +:+ joinComma rest
  end.

(** [ToString] of a value built by [JSON.parse]: an array converts by
    [join], in which a [null] element gives the empty text. *)
Fixpoint toString (v : json) : string :=
  match v with
  | JNull => "null"
  | JBool true => "true"
  | JBool false => "false"
  | JNum n => pretty n
  | JStr s => s
  | JArr elems =>
      joinComma
        (map (fun e => match e with JNull => "" | _ => toString e end) elems)
  | JObj _ => "[object Object]"
  end.

(** ** A reader for JSON texts

    Stands for the platform's [JSON.parse] where a concrete run is
    evaluated.  It follows the JSON grammar (white space, literals,
    strings with escapes, arrays, objects).  Outside the model, and
    rejected: numbers with a fraction or an exponent, [\u] escapes of
    code units from 256 on. *)

Definition isJsonSpace (c : Ascii.ascii) : bool :=
  let n := Ascii.nat_of_ascii c in
  ((n =? 32) || (n =? 9) || (n =? 10) || (n =? 13))%nat.

Fixpoint skipSpace (s : string) : string :=
  match s with
  | String c rest => if isJsonSpace c then skipSpace rest else s
  | EmptyString => EmptyString
  end.

Definition digitValue (c : Ascii.ascii) : option Z :=
  let n := Ascii.nat_of_ascii c in
  if ((48 <=? n) && (n <=? 57))%nat then Some (Z.of_nat n - 48) else None.

Definition hexValue (c : Ascii.ascii) : option nat :=
  let n := Ascii.nat_of_ascii c in
  if ((48 <=? n) && (n <=? 57))%nat then Some (n - 48)%nat
  else if ((65 <=? n) && (n <=? 70))%nat then Some (n - 55)%nat
  else if ((97 <=? n) && (n <=? 102))%nat then Some (n - 87)%nat
  else None.

Fixpoint readDigits (acc : Z) (s : string) : Z * string :=
  match s with
  | String c rest =>
      match digitValue c with
      | Some d => readDigits (10 * acc + d) rest
      | None => (acc, s)
      end
  | EmptyString => (acc, s)
  end.

(** The digits of an integer, a leading zero standing alone. *)
Definition readInt (s : string) : option (Z * string) :=
  match s with
  | String c rest =>
      match digitValue c with
      | Some 0 => Some (0, rest)
      | Some d => Some (readDigits d rest)
      | None => None
      end
  | EmptyString => None
  end.

Definition startsFraction (s : string) : bool :=
  match s with
  | String c _ =>
      let n := Ascii.nat_of_ascii c in ((n =? 46) || (n =? 69) || (n =? 101))%nat
  | EmptyString => false
  end.

Definition readNumber (s : string) : option (json * string) :=
  let '(negative, s1) :=
    match s with
    | String "-"%char rest => (true, rest)
    | _ => (false, s)
    end in
  match readInt s1 with
  | Some (n, rest) =>
      if startsFraction rest then None
      else Some (JNum (if negative : bool then - n else n), rest)
  | None => None
  end.

Definition simpleEscape (c : Ascii.ascii) : option Ascii.ascii :=
  let n := Ascii.nat_of_ascii c in
  if (n =? 34)%nat then Some c                               (* quote *)
  else if (n =? 92)%nat then Some c                          (* backslash *)
  else if (n =? 47)%nat then Some c                          (* slash *)
  else if (n =? 98)%nat then Some (Ascii.ascii_of_nat 8)     (* b *)
  else if (n =? 102)%nat then Some (Ascii.ascii_of_nat 12)   (* f *)
  else if (n =? 110)%nat then Some (Ascii.ascii_of_nat 10)   (* n *)
  else if (n =? 114)%nat then Some (Ascii.ascii_of_nat 13)   (* r *)
  else if (n =? 116)%nat then Some (Ascii.ascii_of_nat 9)    (* t *)
  else None.

Definition consChar (c : Ascii.ascii) (r : option (string * string))
    : option (string * string) :=
  match r with
  | Some (body, rest) => Some (String c body, rest)
  | None => None
  end.

(** The characters of a string literal after its opening quote, up to and
    including the closing quote. *)
Fixpoint readStringBody (s : string) : option (string * string) :=
  match s with
  | EmptyString => None
  | String c rest =>
      let n := Ascii.nat_of_ascii c in
      if (n =? 34)%nat then Some (EmptyString, rest)
      else if (n <? 32)%nat then None
      else if (n =? 92)%nat then
        match rest with
        | String e rest1 =>
            match simpleEscape e with
            | Some c' => consChar c' (readStringBody rest1)
            | None =>
                if (Ascii.nat_of_ascii e =? 117)%nat then
                  match rest1 with
                  | String h1 (String h2 (String h3 (String h4 rest2))) =>
                      match hexValue h1, hexValue h2, hexValue h3, hexValue h4 with
                      | Some a, Some b, Some c1, Some d =>
                          let code := (((a * 16 + b) * 16 + c1) * 16 + d)%nat in
                          if (code <? 256)%nat
                          then consChar (Ascii.ascii_of_nat code) (readStringBody rest2)
                          else None
                      | _, _, _, _ => None
                      end
                  | _ => None
                  end
                else None
            end
        | EmptyString => None
        end
      else consChar c (readStringBody rest)
  end.

Definition isQuote (c : Ascii.ascii) : bool :=
  (Ascii.nat_of_ascii c =? 34)%nat.

Definition readLiteral (lit : string) (v : json) (s : string)
    : option (json * string) :=
  if String.prefix lit s
  then Some (v, String.substring (String.length lit)
                  (String.length s - String.length lit) s)
  else None.

Fixpoint readValue (fuel : nat) (s : string) {struct fuel}
    : option (json * string) :=
  match fuel with
  | O => None
  | S fuel' =>
      match skipSpace s with
      | String "{"%char rest =>
          match skipSpace rest with
          | String "}"%char rest' => Some (JObj [], rest')
          | _ =>
              match readMembers fuel' rest [] with
              | Some (ms, rest') => Some (JObj ms, rest')
              | None => None
              end
          end
      | String "["%char rest =>
          match skipSpace rest with
          | String "]"%char rest' => Some (JArr [], rest')
          | _ =>
              match readElements fuel' rest [] with
              | Some (es, rest') => Some (JArr es, rest')
              | None => None
              end
          end
      | String "t"%char _ => readLiteral "true" (JBool true) (skipSpace s)
      | String "f"%char _ => readLiteral "false" (JBool false) (skipSpace s)
      | String "n"%char _ => readLiteral "null" JNull (skipSpace s)
      | String c rest =>
          if isQuote c then
            match readStringBody rest with
            | Some (body, rest') => Some (JStr body, rest')
            | None => None
            end
          else readNumber (skipSpace s)
      | EmptyString => None
      end
  end
with readElements (fuel : nat) (s : string) (acc : list json) {struct fuel}
    : option (list json * string) :=
  match fuel with
  | O => None
  | S fuel' =>
      match readValue fuel' s with
      | Some (v, rest) =>
          match skipSpace rest with
          | String ","%char rest' => readElements fuel' rest' (v :: acc)
          | String "]"%char rest' => Some (rev (v :: acc), rest')
          | _ => None
          end
      | None => None
      end
  end
with readMembers (fuel : nat) (s : string) (acc : list (string * json))
    {struct fuel} : option (list (string * json) * string) :=
  match fuel with
  | O => None
  | S fuel' =>
      match skipSpace s with
      | String c rest =>
          if isQuote c then
            match readStringBody rest with
            | Some (k, rest1) =>
                match skipSpace rest1 with
                | String ":"%char rest2 =>
                    match readValue fuel' rest2 with
                    | Some (v, rest3) =>
                        match skipSpace rest3 with
                        | String ","%char rest' =>
                            readMembers fuel' rest' ((k, v) :: acc)
                        | String "}"%char rest' =>
                            Some (rev ((k, v) :: acc), rest')
                        | _ => None
                        end
                    | None => None
                    end
                | _ => None
                end
            | None => None
            end
          else None
      | EmptyString => None
      end
  end.

Definition readJson (s : string) : option json :=
  match readValue (S (String.length s)) s with
  | Some (v, rest) =>
      match skipSpace rest with
      | EmptyString => Some v
      | String _ _ => None
      end
  | None => None
  end.

(** ** The request sent upstream (lines 183-253) *)

Inductive Role := role_user | role_assistant.

Inductive ContentPart :=
| TextPart (t : string)
| ImageUrlPart (url : string).

Inductive Content :=
| PlainText (t : string)
| Parts (parts : list ContentPart).

Record ApiMessage := mkApiMessage {
  role : Role;
  content : Content
}.

Record Request := mkRequest {
  req_url : string;
  req_model : string;
  req_messages : list ApiMessage;
  req_temperature : Q;
  req_max_tokens : Z;
  req_stream : bool
}.

(** ** What the network answers *)

(** One [reader.read()]: a chunk, already decoded to text, with the clock
    reading at which it is processed, or a rejection. *)
Inductive Read :=
| Chunk (now : Z) (chunk : string)
| ReadError (message : string).

(** [fetch] rejects (network failure, with the message of the error), or
    resolves to a response with a status and a body ([None] is a [null]
    body); the reads of the body end with [done]. *)
Inductive FetchOutcome :=
| FetchRejected (message : string)
| FetchResponse (status : Z) (body : option (list Read)).

(** ** The streaming read loop (lines 264-313) *)

(** [chunk.split("\n")]. *)
Fixpoint splitLines (s : string) : list string :=
  match s with
  | EmptyString => [EmptyString]
  | String c rest =>
      if (nat_of_ascii c =? 10)%nat then EmptyString :: splitLines rest
      else
        match splitLines rest with
        | l :: ls => String c l :: ls
        | [] => [String c EmptyString]
        end
  end.

(** [line.slice(n)]. *)
Fixpoint slice (n : nat) (s : string) : string :=
  match n, s with
  | S n', String _ rest => slice n' rest
  | _, _ => s
  end.

(** The updater of [processChunk] (lines 272-281) on the message list. *)
Definition replaceLastText (t : string) (prevMessages : list Message)
    : list Message :=
  let i := (length prevMessages - 1)%nat in
  match prevMessages !! i with
  | Some lastMessage =>
      <[ i := mkMessage t (sender lastMessage) (imageUrl lastMessage) ]>
        prevMessages
  | None => prevMessages
  end.

(** [processChunk] (lines 270-283): [updateCurrentConversation] is the
    one of the render [r] in which [handleSubmit] was created. *)
Definition processChunk (r : State) (now : Z) (t : string) (s : State)
    : State :=
  let updatedMessages := replaceLastText t (st_messages s) in
  let s1 :=
    if (0 <? length updatedMessages)%nat
    then updateCurrentConversation r now updatedMessages s
    else s in
  setMessages (fun _ => updatedMessages) s1.

(** The local state of the loop: [accumulatedText], the live component
    state, the number of [console.error] calls, and, kept for the
    statements below, the arguments of the calls of [processChunk] so
    far, oldest first. *)
Record Loop := mkLoop {
  accumulatedText : string;
  app : State;
  logged : nat;
  yielded : list string
}.

Definition logError (l : Loop) : Loop :=
  mkLoop (accumulatedText l) (app l) (S (logged l)) (yielded l).

Definition doneSentinel : string := "[DONE]".

Section Controller.

(** The two configuration variables of the environment, the platform's
    [JSON.parse] ([None] when it throws) and the message the platform
    gives the [TypeError] of reading a property of [null]. *)
Variable env_LM_STUDIO_URL env_MODEL_NAME : option string.
Variable JSON_parse : string -> option json.
Variable nullReadMessage : string.

(** Lines 36-38. *)
Definition API_BASE_URL : string :=
  match env_LM_STUDIO_URL with
  | Some v => if nonEmpty v then v else "http://192.168.1.174:1234/v1"
  | None => "http://192.168.1.174:1234/v1"
  end.

Definition MODEL_NAME : string :=
  match env_MODEL_NAME with
  | Some v => if nonEmpty v then v else "gemma-3-12b"
  | None => "gemma-3-12b"
  end.

(** The body of the [for] loop over the lines of one chunk (lines
    292-311); [break] at the sentinel leaves the remaining lines of the
    chunk unread. *)
Fixpoint forLines (r : State) (now : Z) (lines : list string) (l : Loop)
    : Loop :=
  match lines with
  | [] => l
  | line :: rest =>
      if String.prefix "data: " line then
        let data := slice 6 line in
        if String.eqb data doneSentinel then
          mkLoop (accumulatedText l) (setIsStreaming false (app l))
            (logged l) (yielded l)
        else
          match JSON_parse data with
          | Some parsed =>
              match deltaContent parsed with
              | Some (Some delta) =>
                  if toBoolean (Some delta) then
                    let acc := accumulatedText l +:+ toString delta in
                    forLines r now rest
                      (mkLoop acc (processChunk r now acc (app l))
                         (logged l) (yielded l ++ [acc]))
                  else forLines r now rest l
              | Some None => forLines r now rest l
              | None => forLines r now rest (logError l)
              end
          | None => forLines r now rest (logError l)
          end
      else forLines r now rest l
  end.

(** The [while (true)] loop (lines 285-312): ends at [done], which is the
    end of the list of reads; a rejected read throws ([Some message]). *)
Fixpoint readLoop (r : State) (reads : list Read) (l : Loop)
    : Loop * option string :=
  match reads with
  | [] => (l, None)
  | Chunk now chunk :: rest =>
      readLoop r rest (forLines r now (splitLines chunk) l)
  | ReadError message :: _ => (l, Some message)
  end.

(** ** [handleSubmit] (lines 153-339) *)

(** Lines 158-162. *)
Definition userMessage (r : State) : Message :=
  mkMessage (st_inputText r) user
    (if truthy (st_imagePreviewUrl r) then st_imagePreviewUrl r else None).

(** Lines 195-220. *)
Definition currentMessageContent (currentInputText : string)
    (currentSelectedImage : option string) : Content :=
  match currentSelectedImage with
  | Some url =>
      if nonEmpty url then
        if nonEmpty (trim currentInputText)
        then Parts [TextPart (trim currentInputText); ImageUrlPart url]
        else Parts [ImageUrlPart url]
      else PlainText (trim currentInputText)
  | None => PlainText (trim currentInputText)
  end.

(** Lines 183-226. *)
Definition messagesForApi (r : State) : list ApiMessage :=
  map (fun msg =>
         mkApiMessage
           (match sender msg with user => role_user | llm => role_assistant end)
           (PlainText (text msg)))
      (st_messages r)
  ++ [mkApiMessage role_user
        (currentMessageContent (st_inputText r) (st_selectedImage r))].

(** Lines 241-253. *)
Definition request (r : State) : Request :=
  mkRequest (API_BASE_URL +:+ "/chat/completions") MODEL_NAME
    (messagesForApi r) (7 # 10)%Q 2000 true.

Definition streamingPlaceholder : Message := mkMessage "" llm None.

(** Lines 157-239: everything [handleSubmit] does before it first waits. *)
Definition submitSync (r : State) (now : Z) (s : State) : State :=
  let newMessages := st_messages r ++ [userMessage r] in
  let s1 := setMessages (fun _ => newMessages) s in
  let s2 :=
    if negb (truthy (st_currentConversationId r))
    then snd (createNewConversation now s1)
    else updateCurrentConversation r now newMessages s1 in
  let s3 := setImagePreviewUrl None (setSelectedImage None (setInputText "" s2)) in
  let s4 := setIsStreaming true s3 in
  setMessages (fun prevMessages => prevMessages ++ [streamingPlaceholder]) s4.

(** The callback given to [setTimeout] at line 171, run at clock reading
    [timerNow]; it is scheduled only when the render had no current
    conversation. *)
Definition submitTimer (r : State) (timerNow : Z) (s : State) : State :=
  if negb (truthy (st_currentConversationId r))
  then updateCurrentConversation r timerNow (st_messages r ++ [userMessage r]) s
  else s.

(** [response.json()] with the fallback of line 258. *)
Fixpoint bodyText (reads : list Read) : option string :=
  match reads with
  | [] => Some ""
  | Chunk _ chunk :: rest =>
      match bodyText rest with
      | Some t => Some (chunk +:+ t)
      | None => None
      end
  | ReadError _ :: _ => None
  end.

Definition errorData (body : option (list Read)) : json :=
  let fallback := JObj [("error", JStr "No additional error info")] in
  match body with
  | Some reads =>
      match bodyText reads with
      | Some t =>
          match JSON_parse t with
          | Some v => v
          | None => fallback
          end
      | None => fallback
      end
  | None => fallback
  end.

(** The message of the error thrown at lines 255-262. *)
Definition httpErrorMessage (status : Z) (body : option (list Read))
    : string :=
  match errorData body with
  | JNull => nullReadMessage
  | data =>
      let e := getProp "error" data in
      "HTTP error! Status: " +:+ pretty status +:+ ". "
        +:+ (match e with
             | Some v => if toBoolean e then toString v else ""
             | None => ""
             end)
  end.

(** Lines 320-323. *)
Definition errorMessage (message : string) : Message :=
  mkMessage
    ("Error: " +:+ message
       +:+ ". Please ensure LM Studio is running with " +:+ MODEL_NAME
       +:+ " model loaded at " +:+ API_BASE_URL +:+ "/chat/completions.")
    llm None.

(** The updater of lines 326-337. *)
Definition replaceOrPush (e : Message) (prevMessages : list Message)
    : list Message :=
  let i := (length prevMessages - 1)%nat in
  match prevMessages !! i with
  | Some lastMessage =>
      if String.eqb (text lastMessage) ""
      then <[ i := e ]> prevMessages
      else prevMessages ++ [e]
  | None => prevMessages ++ [e]
  end.

(** The [catch] block (lines 316-338). *)
Definition catchError (message : string) (s : State) : State :=
  setMessages (replaceOrPush (errorMessage message)) (setIsStreaming false s).

Definition responseOk (status : Z) : bool :=
  ((200 <=? status) && (status <=? 299))%Z.

(** Lines 241-338: what follows the answer of [fetch]. *)
Definition afterFetch (r : State) (outcome : FetchOutcome) (s : State)
    : State :=
  match outcome with
  | FetchRejected message => catchError message s
  | FetchResponse status body =>
      if responseOk status then
        match body with
        | Some reads =>
            match readLoop r reads (mkLoop "" s 0 []) with
            | (l, None) => setIsStreaming false (app l)
            | (l, Some message) => catchError message (app l)
            end
        | None => setIsStreaming false s
        end
      else catchError (httpErrorMessage status body) s
  end.

(** The whole handler.  [fetch] is the network, as the answer to each
    request.  The timer of line 171 has delay 0 and runs while the
    handler waits for the answer. *)
Definition handleSubmit (r : State) (now timerNow : Z)
    (fetch : Request -> FetchOutcome) (s : State) : State :=
  if negb (nonEmpty (trim (st_inputText r))) && negb (truthy (st_selectedImage r))
  then s
  else
    afterFetch r (fetch (request r))
      (submitTimer r timerNow (submitSync r now s)).

End Controller.

(** ** The typing indicator and the cursor of [renderMessage]
       (lines 341-344 and 393-398)

    [renderMessage] is called by [messages.map] with a message of the
    render and its index. *)

Definition isLastMessage (s : State) (index : nat) : bool :=
  (Z.of_nat index =? Z.of_nat (length (st_messages s)) - 1)%Z.

Definition showTypingIndicator (s : State) (message : Message) (index : nat)
    : bool :=
  st_isStreaming s && bool_decide (sender message = llm)
  && isLastMessage s index && negb (nonEmpty (text message)).

(** The condition under which the paragraph renderer adds the cursor. *)
Definition showCursor (s : State) (message : Message) (index : nat) : bool :=
  st_isStreaming s && bool_decide (sender message = llm)
  && isLastMessage s index && nonEmpty (text message).

(** ** The dark mode preference (lines 24, 50-54, 120-133, 420-422)

    The hook [isDarkMode], the text under the key ["darkMode"] ([None]
    when the key is absent) and whether the document element carries the
    class ["dark"]. *)

Record Theme := mkTheme {
  isDarkMode : bool;
  ls_darkMode : option string;
  darkClass : bool
}.

(** The value the load effect of lines 51-54 sets. *)
Definition loadDarkMode (savedDarkMode : option string) : bool :=
  match savedDarkMode with
  | None => true
  | Some t => String.eqb t "true"
  end.

(** [isDarkMode.toString()]. *)
Definition boolText (b : bool) : string := if b then "true" else "false".

(** The effect of lines 126-133 for a render with hook value [b]. *)
Definition darkModeEffect (b : bool) (th : Theme) : Theme :=
  mkTheme b (Some (boolText b)) b.

(** Mounting: the hook starts as [true]; the effects of the first render
    run in order (load, class added at line 122, save and apply with the
    initial value); when the loaded value differs from [true] a second
    render follows and the effect of lines 126-133 runs again. *)
Definition mountTheme (savedDarkMode : option string) : Theme :=
  let loaded := loadDarkMode savedDarkMode in
  let th1 := darkModeEffect true (mkTheme true savedDarkMode true) in
  if loaded then th1 else darkModeEffect false th1.

(** [toggleDarkMode] (lines 420-422) and the effect after its render. *)
Definition toggleDarkMode (th : Theme) : Theme :=
  darkModeEffect (negb (isDarkMode th)) th.

(** ** The input handlers (lines 135-151 and 811-814) *)

(** [handleInputChange]. *)
Definition handleInputChange (value : string) (s : State) : State :=
  setInputText value s.

(** The [onload] callback of [handleImageChange]: [result] is what the
    file reader produced ([None] when it produced nothing), [objectUrl]
    what [URL.createObjectURL] returned. *)
Definition handleImageChange (result : option string) (objectUrl : string)
    (s : State) : State :=
  if truthy result
  then setImagePreviewUrl (Some objectUrl) (setSelectedImage result s)
  else s.

(** The "Remove image" button. *)
Definition removeImage (s : State) : State :=
  setSelectedImage None (setImagePreviewUrl None s).

(** * Notions used in the statements *)

(** ** Titles and ids *)

(** The title a conversation gets from one update with a non-empty list:
    a function of the old title and of the first message only. *)
Definition retitle (firstText : string) (oldTitle : string) : string :=
  if String.eqb oldTitle placeholderTitle
  then generateConversationTitle firstText
  else oldTitle.

(** The titles after one update, position by position. *)
Definition retitleMatching (r : State) (firstText : string)
    (conv : Conversation) : string :=
  if strict_eq (Some (id conv)) (st_currentConversationId r)
  then retitle firstText (title conv)
  else title conv.

(** A run of calls of [updateCurrentConversation] made from one render,
    each with its clock reading and message list. *)
Fixpoint updateMany (r : State) (calls : list (Z * list Message))
    (s : State) : State :=
  match calls with
  | [] => s
  | (now, newMessages) :: rest =>
      updateMany r rest (updateCurrentConversation r now newMessages s)
  end.

(** A user message and an assistant message without image. *)
Definition sampleUser (t : string) : Message := mkMessage t user None.
Definition sampleReply (t : string) : Message := mkMessage t llm None.

(** A render with one untitled conversation, which is the current one. *)
Definition oneConversation : State :=
  snd (createNewConversation 1000 initialState).

(** The number an id reads as in decimal. *)
Definition idNumber (conversationId : string) : Z :=
  fst (readDigits 0 conversationId).

(** Conversations created one after the other at the given clock
    readings. *)
Fixpoint createMany (clock : list Z) (s : State) : State :=
  match clock with
  | [] => s
  | now :: later => createMany later (snd (createNewConversation now s))
  end.

(** ** Invariants of the session *)

(** A non-empty list in memory is the list in the store. *)
Definition storeInSync (w : World) : Prop :=
  st_conversations (state w) ≠ [] →
  ls_conversations (storage w) = Some (Serialized (st_conversations (state w))).

(** A current id that is set names a conversation of the list. *)
Definition activeIdValid (s : State) : Prop :=
  match st_currentConversationId s with
  | Some conversationId => conversationId ∈ map id (st_conversations s)
  | None => True
  end.

Global Instance activeIdValid_dec (s : State) : Decision (activeIdValid s).
Proof. unfold activeIdValid. destruct (st_currentConversationId s); apply _. Defined.

(** ** Frames of the event stream *)

(** What the loop makes of one line. *)
Inductive Frame :=
| Ignored              (* no "data: " prefix *)
| Sentinel             (* data: [DONE] *)
| Malformed            (* the payload throws in the [try] block: logged *)
| NoDelta              (* parsed, no truthy delta *)
| Delta (d : string).  (* parsed, delta text [d] *)

Global Instance Frame_eq_dec : EqDecision Frame.
Proof. solve_decision. Defined.

Definition sentinelLine : string := "data: [DONE]".

Section Frames.

Variable JSON_parse : string -> option json.

(** The kind of a line, by the tests of lines 293-309. *)
Definition classify (line : string) : Frame :=
  if String.prefix "data: " line then
    if String.eqb (slice 6 line) doneSentinel then Sentinel
    else
      match JSON_parse (slice 6 line) with
      | Some parsed =>
          match deltaContent parsed with
          | Some (Some delta) =>
              if toBoolean (Some delta) then Delta (toString delta) else NoDelta
          | Some None => NoDelta
          | None => Malformed
          end
      | None => Malformed
      end
  else Ignored.

(** The frames the [for] loop parses in the lines of one chunk: the lines
    with the prefix, up to the sentinel. *)
Fixpoint parsedFrames (lines : list string) : list Frame :=
  match lines with
  | [] => []
  | line :: rest =>
      match classify line with
      | Sentinel => []
      | Ignored => parsedFrames rest
      | f => f :: parsedFrames rest
      end
  end.

(** The frames parsed over the reads of a body. *)
Fixpoint receivedFrames (reads : list Read) : list Frame :=
  match reads with
  | [] => []
  | Chunk _ chunk :: rest => parsedFrames (splitLines chunk) ++ receivedFrames rest
  | ReadError _ :: _ => []
  end.

End Frames.

(** The delta texts among the frames, in order. *)
Definition deltasOf (frames : list Frame) : list string :=
  flat_map (fun f => match f with Delta d => [d] | _ => [] end) frames.

(** The number of frames that were logged. *)
Definition malformedCount (frames : list Frame) : nat :=
  length (filter (fun f => f = Malformed) frames).

(** The running totals of a list of deltas, from the text [acc]. *)
Fixpoint runningTotals (acc : string) (deltas : list string) : list string :=
  match deltas with
  | [] => []
  | d :: rest => (acc +:+ d) :: runningTotals (acc +:+ d) rest
  end.

(** The text [acc] with all the deltas appended. *)
Definition total (acc : string) (deltas : list string) : string :=
  foldl String.append acc deltas.

(** The loop keeps the last visible message equal to the placeholder
    with the accumulated text, and touches no other message. *)
Definition lastHoldsText (prev : list Message) (l : Loop) : Prop :=
  st_messages (app l) = prev ++ [mkMessage (accumulatedText l) llm None].

(** ** Sample texts

    A JSON text is written with apostrophes where it has
    double quotes; [dq] puts the double quotes in. *)

Fixpoint dq (s : string) : string :=
  match s with
  | EmptyString => EmptyString
  | String c rest =>
      String (if (nat_of_ascii c =? 39)%nat then ascii_of_nat 34 else c) (dq rest)
  end.

Definition newline : ascii := ascii_of_nat 10.

Definition hiFrame : string :=
  dq "data: {'choices':[{'delta':{'content':'Hi'}}]}".

Definition thereFrame : string :=
  dq "data: {'choices':[{'delta':{'content':' there'}}]}".

Definition helloFrames : list Read :=
  [Chunk 1001 (hiFrame +:+ String newline "");
   Chunk 1002 (thereFrame +:+ String newline "");
   Chunk 1003 ("data: [DONE]" +:+ String newline "")].

(** ** Chunks of whole lines *)

Fixpoint noNewline (line : string) : bool :=
  match line with
  | EmptyString => true
  | String c rest => negb (nat_of_ascii c =? 10)%nat && noNewline rest
  end.

(** The text of a chunk that carries whole lines, each ended by a
    newline. *)
Fixpoint joinLines (lines : list string) : string :=
  match lines with
  | [] => ""
  | line :: rest => line +:+ String newline (joinLines rest)
  end.




(** ** Images in a request *)

Definition partImages (p : ContentPart) : list string :=
  match p with
  | ImageUrlPart url => [url]
  | TextPart _ => []
  end.

(** The images a list of request messages carries. *)
Definition imagesOf (msgs : list ApiMessage) : list string :=
  flat_map (fun m =>
              match content m with
              | Parts parts => flat_map partImages parts
              | PlainText _ => []
              end) msgs.

Definition roleOf (m : Message) : Role :=
  match sender m with
  | user => role_user
  | llm => role_assistant
  end.


(** ** The exchange *)

(** The message V8 gives the [TypeError] of reading [error] of [null]. *)
Definition v8NullRead : string :=
  "Cannot read properties of null (reading 'error')".

(** The visible list when [handleSubmit] starts to wait: the placeholder
    is last.  Before it come the messages of the render and the user
    message, unless a conversation was created, which empties the list. *)
Definition submittedBase (r : State) : list Message :=
  if truthy (st_currentConversationId r)
  then st_messages r ++ [userMessage r]
  else [].

(** The answer of the scenario: status 500, the error text in the body. *)
Definition modelNotLoaded : FetchOutcome :=
  FetchResponse 500 (Some [Chunk 1001 (dq "{'error':'model not loaded'}")]).

(** ** Blank input *)

(** The text consists of white space only. *)
Fixpoint allWhiteSpace (s : string) : bool :=
  match s with
  | EmptyString => true
  | String c rest => isWhiteSpace c && allWhiteSpace rest
  end.

(** The guard of line 155 lets the submission through. *)
Definition submittable (r : State) : bool :=
  nonEmpty (trim (st_inputText r)) || truthy (st_selectedImage r).

(** ** Editing the input *)

(** What the user does in the form before submitting. *)
Inductive InputAction :=
| TypeText (value : string)
| PickImage (result : option string) (objectUrl : string)
| RemoveImage.

Definition applyInput (s : State) (a : InputAction) : State :=
  match a with
  | TypeText value => handleInputChange value s
  | PickImage result objectUrl => handleImageChange result objectUrl s
  | RemoveImage => removeImage s
  end.

(** [URL.createObjectURL] returned a non-empty URL. *)
Definition pickedUrlNonEmpty (a : InputAction) : bool :=
  match a with
  | PickImage _ objectUrl => nonEmpty objectUrl
  | _ => true
  end.

(** An image is selected exactly when a preview is. *)
Definition imagePaired (s : State) : Prop :=
  truthy (st_selectedImage s) = truthy (st_imagePreviewUrl s).

(** * Properties *)

(** ** Conversation ids *)

Lemma pretty_N_go_length (x : N) (s : string) :
  (String.length s <= String.length (pretty_N_go x s))%nat.
Proof.
  revert s. induction (N.lt_wf_0 x) as [x _ IH]; intros s.
  destruct (decide (x = 0)%N) as [->|Hx].
  - by rewrite pretty_N_go_0.
  - rewrite pretty_N_go_step by lia.
    etrans; [|apply IH, N.div_lt; lia]. simpl. lia.
Qed.

Lemma pretty_N_nonempty (x : N) : pretty x ≠ "".
Proof.
  unfold pretty, pretty_N. case_decide as Hx; [done|].
  rewrite pretty_N_go_step by lia. intros Heq.
  pose proof (pretty_N_go_length (x `div` 10)
                (String (pretty_N_char (x `mod` 10)) "")) as Hlen.
  rewrite Heq in Hlen. simpl in Hlen. lia.
Qed.

Lemma pretty_Z_nonempty (z : Z) : pretty z ≠ "".
Proof.
  destruct z as [|p|p]; unfold pretty, pretty_Z; [done| |done].
  apply pretty_N_nonempty.
Qed.

Lemma eqb_empty_false (s : string) : s ≠ "" → String.eqb s "" = false.
Proof. intros Hs. by apply String.eqb_neq. Qed.

Lemma digitValue_pretty_N_char (d : N) :
  (d < 10)%N → digitValue (pretty_N_char d) = Some (Z.of_N d).
Proof.
  intros Hd.
  assert (d = 0 ∨ d = 1 ∨ d = 2 ∨ d = 3 ∨ d = 4 ∨ d = 5 ∨ d = 6 ∨ d = 7
          ∨ d = 8 ∨ d = 9)%N as Hcases by lia.
  repeat (destruct Hcases as [->|Hcases]; [reflexivity|]). by subst.
Qed.

(** Reading back the digits [pretty] writes. *)
Lemma readDigits_pretty_N_go (x : N) :
  ∃ p : Z, ∀ (acc : Z) (s : string),
    readDigits acc (pretty_N_go x s) = readDigits (acc * p + Z.of_N x) s.
Proof.
  induction (N.lt_wf_0 x) as [x _ IH].
  destruct (decide (x = 0)%N) as [->|Hx].
  - exists 1. intros acc s. rewrite pretty_N_go_0. f_equal. lia.
  - destruct (IH (x `div` 10)%N) as [p Hp]; [apply N.div_lt; lia|].
    exists (10 * p). intros acc s.
    rewrite pretty_N_go_step, Hp by lia. cbn [readDigits].
    rewrite digitValue_pretty_N_char by (apply N.mod_lt; lia).
    f_equal. pose proof (N.div_mod x 10). lia.
Qed.

Lemma idNumber_pretty (now : Z) : (0 ≤ now)%Z → idNumber (pretty now) = now.
Proof.
  destruct now as [|n|n]; [done| |lia]. intros _.
  unfold idNumber, pretty, pretty_Z, pretty, pretty_positive, pretty, pretty_N.
  case_decide; [done|].
  destruct (readDigits_pretty_N_go (N.pos n)) as [p ->]. simpl. lia.
Qed.

(** The id [Date.now().toString()] is a truthy string. *)
Lemma truthy_pretty (now : Z) : truthy (Some (pretty now)) = true.
Proof.
  unfold truthy. by rewrite eqb_empty_false by apply pretty_Z_nonempty.
Qed.

Lemma strict_eq_refl (a : option string) : strict_eq a a = true.
Proof. unfold strict_eq. by rewrite bool_decide_eq_true. Qed.

(** ** Title derivation *)

Lemma generateConversationTitle_short (t : string) :
  (String.length t <= 30)%nat → generateConversationTitle t = t.
Proof.
  intros Hlen. unfold generateConversationTitle.
  destruct (Nat.ltb_spec 30 (String.length t)); [lia|done].
Qed.

Lemma generateConversationTitle_long (t : string) :
  (30 < String.length t)%nat →
  generateConversationTitle t = String.substring 0 30 t +:+ "...".
Proof.
  intros Hlen. unfold generateConversationTitle.
  destruct (Nat.ltb_spec 30 (String.length t)); [done|lia].
Qed.

Lemma retitle_idempotent (firstText oldTitle : string) :
  retitle firstText (retitle firstText oldTitle) = retitle firstText oldTitle.
Proof.
  unfold retitle.
  destruct (String.eqb oldTitle placeholderTitle) eqn:Hold.
  - destruct (String.eqb (generateConversationTitle firstText) placeholderTitle)
      eqn:Hnew; done.
  - by rewrite Hold.
Qed.

Lemma title_updatedConversation (now : Z) (m : Message) (rest : list Message)
    (conv : Conversation) :
  title (updatedConversation now (m :: rest) conv) = retitle (text m) (title conv).
Proof. done. Qed.

Lemma titles_after_update (r : State) (now : Z) (m : Message)
    (rest : list Message) (s : State) :
  truthy (st_currentConversationId r) = true →
  map title (st_conversations (updateCurrentConversation r now (m :: rest) s))
  = map (retitleMatching r (text m)) (st_conversations s).
Proof.
  intros Hcur. unfold updateCurrentConversation. rewrite Hcur. simpl.
  rewrite map_map. apply map_ext. intros conv. unfold retitleMatching.
  by destruct (strict_eq _ _).
Qed.

Lemma ids_after_update (r : State) (now : Z) (newMessages : list Message)
    (s : State) :
  map id (st_conversations (updateCurrentConversation r now newMessages s))
  = map id (st_conversations s).
Proof.
  unfold updateCurrentConversation.
  destruct (truthy _); [|done]. simpl.
  rewrite map_map. apply map_ext. intros conv. by destruct (strict_eq _ _).
Qed.

Lemma titles_retitle_twice (r : State) (t : string) (l : list Conversation)
    (l' : list Conversation) :
  map id l' = map id l →
  map title l' = map (retitleMatching r t) l →
  map (retitleMatching r t) l' = map title l'.
Proof.
  revert l'. induction l as [|c l IH]; intros [|c' l'] Hid Htitle;
    simplify_eq/=; [done|].
  f_equal; [|by apply IH].
  unfold retitleMatching in *.
  match goal with H : id c' = id c |- _ => rewrite H in * end.
  destruct (strict_eq _ _); [|done].
  match goal with H : title c' = _ |- _ => rewrite H end.
  apply retitle_idempotent.
Qed.

Lemma updateMany_falsy (r : State) (calls : list (Z * list Message))
    (s : State) :
  truthy (st_currentConversationId r) = false → updateMany r calls s = s.
Proof.
  intros Hcur. revert s.
  induction calls as [|[now newMessages] calls IH]; intros s; simpl; [done|].
  rewrite IH. unfold updateCurrentConversation. by rewrite Hcur.
Qed.

Lemma updateMany_titles (r : State) (m : Message)
    (calls : list (Z * list Message)) :
  truthy (st_currentConversationId r) = true →
  Forall (fun call => head (snd call) = Some m) calls →
  ∀ (l0 : list Conversation) (s : State),
    map id (st_conversations s) = map id l0 →
    map title (st_conversations s) = map (retitleMatching r (text m)) l0 →
    map title (st_conversations (updateMany r calls s))
    = map title (st_conversations s).
Proof.
  intros Hcur Hcalls.
  induction Hcalls as [|[now newMessages] calls Hhead _ IH]; intros l0 s Hid Ht;
    simpl; [done|].
  destruct newMessages as [|m' tl]; simplify_eq/=.
  assert (map title
            (st_conversations (updateCurrentConversation r now (m :: tl) s))
          = map title (st_conversations s)) as Hstep.
  { rewrite titles_after_update by done.
    by apply titles_retitle_twice with (l := l0). }
  rewrite (IH l0); [done| |].
  - by rewrite ids_after_update.
  - by rewrite Hstep.
Qed.

(** C6. However many times [updateCurrentConversation] is called again
    during an exchange with non-empty message lists that start with the
    same first message [m], every conversation keeps the title it had
    after the first such call. *)
Theorem title_fixed_after_first_update (r : State) (now1 : Z) (m : Message)
    (rest1 : list Message) (calls : list (Z * list Message)) (s : State) :
  Forall (fun call => head (snd call) = Some m) calls →
  map title
    (st_conversations
       (updateMany r calls (updateCurrentConversation r now1 (m :: rest1) s)))
  = map title
      (st_conversations (updateCurrentConversation r now1 (m :: rest1) s)).
Proof.
  intros Hcalls.
  destruct (truthy (st_currentConversationId r)) eqn:Hcur.
  - apply (updateMany_titles r m calls Hcur Hcalls (st_conversations s)).
    + apply ids_after_update.
    + by apply titles_after_update.
  - by rewrite updateMany_falsy.
Qed.

Lemma title_fixed_after_first_update_witness :
  map title
    (st_conversations
       (updateMany oneConversation
          [(1002, [sampleUser "New Conversation"; sampleReply "Hi"]);
           (1003, [sampleUser "New Conversation"; sampleReply "Hi there"])]
          (updateCurrentConversation oneConversation 1001
             [sampleUser "New Conversation"; sampleReply ""] oneConversation)))
  = ["New Conversation"].
Proof.
  rewrite (title_fixed_after_first_update oneConversation 1001
             (sampleUser "New Conversation")).
  - vm_compute. reflexivity.
  - repeat constructor.
Defined.

(** ** Creating a conversation *)

(** C8, as the code has it.  [createNewConversation] takes as id the
    decimal numeral of the clock reading.  The id of another call equals
    it exactly when that call reads the same clock value, and, for
    readings from 0 on, a later reading gives an id that reads as a
    number at least as large.  The new conversation is untitled and
    empty, it is put in front of the list, it becomes the current one,
    the visible list is emptied, and the id is returned. *)
Theorem createNewConversation_spec (now : Z) (s : State) :
  let newId := fst (createNewConversation now s) in
  let s' := snd (createNewConversation now s) in
  newId = pretty now
  ∧ (∀ (now2 : Z) (s2 : State),
       fst (createNewConversation now2 s2) = newId ↔ now2 = now)
  ∧ (∀ (now2 : Z) (s2 : State),
       (0 ≤ now ≤ now2)%Z →
       (idNumber newId ≤ idNumber (fst (createNewConversation now2 s2)))%Z)
  ∧ st_conversations s'
    = mkConversation newId "New Conversation" [] now now :: st_conversations s
  ∧ st_currentConversationId s' = Some newId
  ∧ truthy (st_currentConversationId s') = true
  ∧ st_messages s' = [].
Proof.
  simpl. split_and!; try done.
  - intros now2 s2. split; [apply pretty_Z_inj|by intros ->].
  - intros now2 _ Hle. rewrite !idNumber_pretty by lia. lia.
  - apply truthy_pretty.
Qed.

(** C8, counterexample to the uniqueness of ids: two calls that read the
    same clock value give two conversations with one id. *)
Lemma same_millisecond_same_id :
  let first := createNewConversation 1000 initialState in
  let second := createNewConversation 1000 (snd first) in
  fst second = fst first
  ∧ map id (st_conversations (snd second)) = ["1000"; "1000"].
Proof. vm_compute. done. Qed.

Lemma createMany_ids (clock : list Z) (s : State) :
  map id (st_conversations (createMany clock s))
  = map pretty (reverse clock) ++ map id (st_conversations s).
Proof.
  revert s. induction clock as [|now later IH]; intros s; simpl; [done|].
  rewrite IH. simpl. rewrite reverse_cons, map_app. simpl.
  by rewrite <- app_assoc.
Qed.

(** Ids of conversations created at pairwise distinct clock readings are
    pairwise distinct. *)
Lemma createMany_distinct (clock : list Z) :
  NoDup clock → NoDup (map id (st_conversations (createMany clock initialState))).
Proof.
  intros Hclock. rewrite createMany_ids. simpl. rewrite app_nil_r.
  apply (NoDup_fmap_2 (pretty : Z → string)).
  by rewrite reverse_Permutation.
Qed.

(** ** The first update of a new conversation *)

Lemma find_head_match (c : Conversation) (l : list Conversation) (k : string) :
  id c = k → find (fun c' => String.eqb (id c') k) (c :: l) = Some c.
Proof. intros <-. simpl. by rewrite String.eqb_refl. Qed.

(** C7, as the code has it.  After [createNewConversation] and one update
    with [[m]] made from the render that follows the creation, the new
    conversation holds exactly [[m]] and its title is the text of [m]
    when that has at most 30 characters (the empty text included) and its
    first 30 characters followed by three dots otherwise. *)
Theorem create_then_update (now now' : Z) (m : Message) (s : State) :
  let newId := fst (createNewConversation now s) in
  let r := snd (createNewConversation now s) in
  find (fun c => String.eqb (id c) newId)
    (st_conversations (updateCurrentConversation r now' [m] r))
  = Some (mkConversation newId
            (if (String.length (text m) <=? 30)%nat
             then text m
             else String.substring 0 30 (text m) +:+ "...")
            [m] now now').
Proof.
  intros newId r.
  assert (st_currentConversationId r = Some (pretty now)) as Hcur by done.
  assert (st_conversations r = newConversation now :: st_conversations s)
    as Hconvs by done.
  unfold updateCurrentConversation.
  rewrite Hcur, truthy_pretty. cbn [st_conversations setConversations].
  rewrite Hconvs. cbn [map newConversation id].
  rewrite strict_eq_refl, find_head_match by done.
  unfold updatedConversation, generateConversationTitle. simpl.
  rewrite Nat.leb_antisym. by destruct (30 <? String.length (text m))%nat.
Qed.

(** C7, counterexample: for a first message with an image and no text
    the title becomes the empty string, it does not stay
    "New Conversation". *)
Lemma image_only_title_is_empty :
  let m := mkMessage "" user (Some "blob:http://localhost:3000/1") in
  let newId := fst (createNewConversation 1000 initialState) in
  let r := snd (createNewConversation 1000 initialState) in
  text m = ""
  ∧ title <$> find (fun c => String.eqb (id c) newId)
                (st_conversations (updateCurrentConversation r 1001 [m] r))
    = Some ""
  ∧ "" ≠ placeholderTitle.
Proof. vm_compute. done. Qed.

(** ** Persistence *)

Lemma ls_conversations_saveCurrent (s : State) (st : Storage) :
  ls_conversations (saveCurrentConversationId s st) = ls_conversations st.
Proof. unfold saveCurrentConversationId. by destruct (truthy _). Qed.

Lemma ls_conversations_effects (conversationsSet : bool) (s s' : State)
    (st : Storage) :
  ls_conversations (effectsAfterRender conversationsSet s s' st)
  = if conversationsSet && (0 <? length (st_conversations s'))%nat
    then Some (Serialized (st_conversations s'))
    else ls_conversations st.
Proof.
  unfold effectsAfterRender.
  assert (ls_conversations
            (if conversationsSet then saveConversations s' st else st)
          = if conversationsSet && (0 <? length (st_conversations s'))%nat
            then Some (Serialized (st_conversations s'))
            else ls_conversations st) as Hconv.
  { destruct conversationsSet; [|done]. unfold saveConversations. simpl.
    by destruct (0 <? length (st_conversations s'))%nat. }
  destruct (strict_eq _ _); [done|].
  by rewrite ls_conversations_saveCurrent.
Qed.

(** C3, as the code has it.  After an operation that calls
    [setConversations] and leaves the list non-empty, the key
    ["conversations"] holds the whole current list; when the list is left
    empty the save effect is guarded off and the key keeps what it held;
    an operation that does not call [setConversations] leaves the key
    alone. *)
Theorem store_after_action (a : Action) (w : World) :
  ls_conversations (storage (commit a w))
  = if setsConversations a
       && (0 <? length (st_conversations (state (commit a w))))%nat
    then Some (Serialized (st_conversations (state (commit a w))))
    else ls_conversations (storage w).
Proof. unfold commit. simpl. apply ls_conversations_effects. Qed.

(** C3, counterexample: deleting the last remaining conversation leaves
    the deleted conversation in the store while the list in memory is
    empty. *)
Lemma delete_last_keeps_store :
  let w0 := commit (NewChat 1000) (mount (mkStorage None None)) in
  let w1 := commit (DeleteChat "1000") w0 in
  st_conversations (state w0) = [newConversation 1000]
  ∧ st_conversations (state w1) = []
  ∧ ls_conversations (storage w1) = Some (Serialized [newConversation 1000])
  ∧ ls_conversations (storage w1)
    ≠ Some (Serialized (st_conversations (state w1))).
Proof. vm_compute. split_and!; done. Qed.

Lemma length_pos_nil {A : Type} (l : list A) :
  (0 <? length l)%nat = false ↔ l = [].
Proof. destruct l; simpl; split; done. Qed.

Lemma mount_storeInSync (st : Storage) : storeInSync (mount st).
Proof.
  unfold storeInSync, mount. cbn [state storage].
  rewrite ls_conversations_effects.
  destruct st as [[[|l]|] cur]; unfold loadConversations;
    cbn [ls_conversations ls_currentConversationId];
    try (destruct (truthy cur); simpl; done).
  assert (st_conversations
            (if truthy cur
             then
               match find (fun c => strict_eq (Some (id c)) cur) l with
               | Some currentConv =>
                   setMessages (fun _ => messages currentConv)
                     (setCurrentConversationId cur
                        (setConversations (fun _ => l) initialState))
               | None =>
                   setCurrentConversationId cur
                     (setConversations (fun _ => l) initialState)
               end
             else setConversations (fun _ => l) initialState) = l) as ->.
  { destruct (truthy cur); [|done]. by destruct (find _ _). }
  intros Hl. simpl. destruct l; done.
Qed.

Lemma act_unchanged_conversations (a : Action) (s : State) :
  setsConversations a = false → st_conversations (act a s) = st_conversations s.
Proof.
  destruct a as [now|cid|cid|r now newMessages]; simpl; try done.
  - intros _. unfold selectConversation. by destruct (find _ _).
  - intros Hr. unfold updateCurrentConversation. by rewrite Hr.
Qed.

Lemma commit_storeInSync (a : Action) (w : World) :
  storeInSync w → storeInSync (commit a w).
Proof.
  unfold storeInSync, commit. cbn [state storage]. intros Hw Hne.
  rewrite ls_conversations_effects.
  destruct (setsConversations a) eqn:Hset; simpl.
  - destruct (0 <? length _)%nat eqn:Hlen; [done|].
    by apply length_pos_nil in Hlen.
  - rewrite act_unchanged_conversations in * by done. auto.
Qed.

Lemma run_storeInSync (actions : list Action) (st : Storage) :
  storeInSync (run actions (mount st)).
Proof.
  unfold run. generalize (mount_storeInSync st). generalize (mount st).
  induction actions as [|a actions IH]; intros w Hw; simpl; [done|].
  by apply IH, commit_storeInSync.
Qed.

(** A deleted last conversation is back after a reload. *)
Lemma deleted_conversation_returns :
  let w1 :=
    run [NewChat 1000; DeleteChat "1000"] (mount (mkStorage None None)) in
  st_conversations (state w1) = []
  ∧ st_conversations (state (mount (storage w1))) = [newConversation 1000].
Proof. vm_compute. done. Qed.

(** ** The current conversation id *)

(** C4 at the failing input: the store holds a current id and a list
    without a conversation of that id.  The load effect sets the id all
    the same, and the save effects write the same store back. *)
Theorem load_sets_dangling_id :
  let st :=
    mkStorage (Some (Serialized [newConversation 2000])) (Some "1000") in
  st_currentConversationId (state (mount st)) = Some "1000"
  ∧ map id (st_conversations (state (mount st))) = ["2000"]
  ∧ st_messages (state (mount st)) = []
  ∧ ¬ activeIdValid (state (mount st))
  ∧ storage (mount st) = st.
Proof.
  vm_compute. split_and!; try done.
  intros Hin. by apply list_elem_of_In in Hin as [|[]].
Qed.

(** Such a store is left by two tabs of the application: the second tab
    saves its list after the first created a conversation, and does not
    save its unchanged current id. *)
Lemma two_tabs_leave_dangling_id :
  let tabA := commit (NewChat 1000) (mount (mkStorage None None)) in
  let tabB := mount (storage tabA) in
  let tabA' := commit (NewChat 2000) (mkWorld (state tabA) (storage tabB)) in
  let tabB' :=
    commit (UpdateFrom (state tabB) 3000 [sampleUser "Hello"])
      (mkWorld (state tabB) (storage tabA')) in
  storage tabB'
  = mkStorage
      (Some (Serialized [mkConversation "1000" "Hello" [sampleUser "Hello"]
                           1000 3000]))
      (Some "2000")
  ∧ ¬ activeIdValid (state (mount (storage tabB'))).
Proof.
  vm_compute. split; [done|].
  intros Hin. by apply list_elem_of_In in Hin as [|[]].
Qed.

Lemma find_id_elem (k : string) (l : list Conversation) (c : Conversation) :
  find (fun c' => String.eqb (id c') k) l = Some c → k ∈ map id l.
Proof.
  induction l as [|c' l IH]; simpl; [done|].
  destruct (String.eqb_spec (id c') k) as [<-|Hne].
  - intros _. apply list_elem_of_here.
  - intros Hfind. apply list_elem_of_further. by apply IH.
Qed.

Lemma elem_ids_filter (k k' : string) (l : list Conversation) :
  k ≠ k' → k ∈ map id l → k ∈ map id (filter (fun c => id c ≠ k') l).
Proof.
  intros Hne. rewrite !list_elem_of_fmap.
  intros (c & -> & Hc). exists c. split; [done|].
  apply list_elem_of_filter. by split.
Qed.

(** Within a session the operations of the conversation model keep the
    invariant: [selectConversation] sets an id only after it found the
    conversation, which the load effect does not do. *)
Lemma act_activeIdValid (a : Action) (s : State) :
  activeIdValid s → activeIdValid (act a s).
Proof.
  unfold activeIdValid.
  destruct a as [now|cid|cid|r now newMessages]; simpl.
  - intros _. apply list_elem_of_here.
  - unfold selectConversation.
    destruct (find _ _) as [c|] eqn:Hfind; [|done].
    intros _. simpl. by eapply find_id_elem.
  - unfold deleteConversation, strict_eq.
    case_bool_decide as Hcur; simpl; [done|].
    destruct (st_currentConversationId s) as [k|]; [|done].
    apply elem_ids_filter. congruence.
  - intros Hs.
    replace (st_currentConversationId
               (updateCurrentConversation r now newMessages s))
      with (st_currentConversationId s)
      by (unfold updateCurrentConversation; by destruct (truthy _)).
    by rewrite ids_after_update.
Qed.

(** ** The stream decoder, frame by frame *)

Section Decoder.

Variable JSON_parse : string -> option json.

Lemma runningTotals_app (acc : string) (a b : list string) :
  runningTotals acc (a ++ b)
  = runningTotals acc a ++ runningTotals (total acc a) b.
Proof.
  unfold total. revert acc.
  induction a as [|d a IH]; intros acc; simpl; [done|].
  by rewrite IH.
Qed.

Lemma last_runningTotals (acc : string) (deltas : list string) :
  default acc (last (runningTotals acc deltas)) = total acc deltas.
Proof.
  unfold total. revert acc.
  induction deltas as [|d deltas IH]; intros acc; simpl; [done|].
  rewrite <- IH. destruct (runningTotals (acc +:+ d) deltas) as [|t ts]; [done|].
  rewrite last_cons_cons.
  destruct (last (t :: ts)) eqn:Hlast; [done|]. by apply last_None in Hlast.
Qed.

Lemma length_runningTotals (acc : string) (deltas : list string) :
  length (runningTotals acc deltas) = length deltas.
Proof.
  revert acc. induction deltas as [|d deltas IH]; intros acc; simpl; [done|].
  by rewrite IH.
Qed.

(** The loop body, by the kind of the line. *)
Lemma forLines_cons (r : State) (now : Z) (line : string)
    (rest : list string) (l : Loop) :
  forLines JSON_parse r now (line :: rest) l
  = match classify JSON_parse line with
    | Ignored | NoDelta => forLines JSON_parse r now rest l
    | Sentinel =>
        mkLoop (accumulatedText l) (setIsStreaming false (app l))
          (logged l) (yielded l)
    | Malformed => forLines JSON_parse r now rest (logError l)
    | Delta d =>
        forLines JSON_parse r now rest
          (mkLoop (accumulatedText l +:+ d)
             (processChunk r now (accumulatedText l +:+ d) (app l))
             (logged l) (yielded l ++ [accumulatedText l +:+ d]))
    end.
Proof.
  unfold classify. cbn [forLines].
  destruct (String.prefix "data: " line); [|done].
  destruct (String.eqb (slice 6 line) doneSentinel); [done|].
  destruct (JSON_parse (slice 6 line)) as [parsed|]; [|done].
  destruct (deltaContent parsed) as [[delta|]|]; try done.
  by destruct (toBoolean (Some delta)).
Qed.

(** The local variables of the loop after the lines of one chunk. *)
Lemma forLines_locals (r : State) (now : Z) (lines : list string) (l : Loop) :
  let l' := forLines JSON_parse r now lines l in
  let deltas := deltasOf (parsedFrames JSON_parse lines) in
  accumulatedText l' = total (accumulatedText l) deltas
  ∧ yielded l' = yielded l ++ runningTotals (accumulatedText l) deltas
  ∧ logged l' = (logged l + malformedCount (parsedFrames JSON_parse lines))%nat.
Proof.
  revert l. induction lines as [|line rest IH]; intros l.
  { simpl. by rewrite app_nil_r, Nat.add_0_r. }
  cbn zeta. rewrite forLines_cons. cbn [parsedFrames].
  destruct (classify JSON_parse line) as [| | | |d]; cbn zeta in IH.
  - apply IH.
  - simpl. by rewrite app_nil_r, Nat.add_0_r.
  - destruct (IH (logError l)) as (-> & -> & ->). simpl.
    split_and!; try done; unfold malformedCount; simpl; lia.
  - destruct (IH l) as (-> & -> & ->). done.
  - match goal with |- context [forLines _ _ _ _ ?l0] =>
      destruct (IH l0) as (-> & -> & ->) end.
    simpl. by rewrite <- app_assoc.
Qed.

Lemma readLoop_locals (r : State) (reads : list Read) (l : Loop) :
  let l' := fst (readLoop JSON_parse r reads l) in
  let deltas := deltasOf (receivedFrames JSON_parse reads) in
  accumulatedText l' = total (accumulatedText l) deltas
  ∧ yielded l' = yielded l ++ runningTotals (accumulatedText l) deltas
  ∧ logged l' = (logged l + malformedCount (receivedFrames JSON_parse reads))%nat.
Proof.
  revert l. induction reads as [|[now chunk|message] rest IH]; intros l;
    cbn zeta; simpl.
  - by rewrite app_nil_r, Nat.add_0_r.
  - destruct (forLines_locals r now (splitLines chunk) l) as (Ha & Hy & Hl).
    destruct (IH (forLines JSON_parse r now (splitLines chunk) l))
      as (-> & -> & ->).
    rewrite Ha, Hy, Hl. unfold deltasOf, malformedCount, total.
    rewrite !flat_map_app, filter_app, length_app, runningTotals_app, foldl_app.
    rewrite <- app_assoc. split_and!; try done. lia.
  - by rewrite app_nil_r, Nat.add_0_r.
Qed.

End Decoder.

(** ** The visible message list during streaming *)

Lemma st_messages_updateCurrentConversation (r : State) (now : Z)
    (newMessages : list Message) (s : State) :
  st_messages (updateCurrentConversation r now newMessages s) = st_messages s.
Proof. unfold updateCurrentConversation. by destruct (truthy _). Qed.

Lemma lookup_last_snoc {A : Type} (prev : list A) (x : A) :
  (prev ++ [x]) !! (length (prev ++ [x]) - 1)%nat = Some x.
Proof.
  rewrite length_app. simpl. apply list_lookup_middle. lia.
Qed.

Lemma insert_last_snoc {A : Type} (prev : list A) (x y : A) :
  <[ (length (prev ++ [x]) - 1)%nat := y ]> (prev ++ [x]) = prev ++ [y].
Proof.
  rewrite length_app. simpl.
  replace (length prev + 1 - 1)%nat with (length prev + 0)%nat by lia.
  by rewrite insert_app_r.
Qed.

Lemma replaceLastText_snoc (t : string) (prev : list Message) (m : Message) :
  replaceLastText t (prev ++ [m])
  = prev ++ [mkMessage t (sender m) (imageUrl m)].
Proof.
  unfold replaceLastText. by rewrite lookup_last_snoc, insert_last_snoc.
Qed.

Lemma length_replaceLastText (t : string) (l : list Message) :
  length (replaceLastText t l) = length l.
Proof.
  unfold replaceLastText. destruct (l !! _); [|done]. by rewrite length_insert.
Qed.

Lemma st_messages_processChunk (r : State) (now : Z) (t : string) (s : State) :
  st_messages (processChunk r now t s) = replaceLastText t (st_messages s).
Proof. done. Qed.

Section Streaming.

Variable JSON_parse : string -> option json.

Lemma forLines_lastHoldsText (r : State) (now : Z) (prev : list Message)
    (lines : list string) (l : Loop) :
  lastHoldsText prev l → lastHoldsText prev (forLines JSON_parse r now lines l).
Proof.
  revert l. induction lines as [|line rest IH]; intros l Hl; [done|].
  rewrite forLines_cons.
  destruct (classify JSON_parse line) as [| | | |d];
    [by apply IH|done|by apply IH|by apply IH|].
  apply IH. unfold lastHoldsText in *. cbn [app accumulatedText].
  by rewrite st_messages_processChunk, Hl, replaceLastText_snoc.
Qed.

Lemma readLoop_lastHoldsText (r : State) (prev : list Message)
    (reads : list Read) (l : Loop) :
  lastHoldsText prev l →
  lastHoldsText prev (fst (readLoop JSON_parse r reads l)).
Proof.
  revert l. induction reads as [|[now chunk|message] rest IH]; intros l Hl;
    simpl; [done| |done].
  by apply IH, forLines_lastHoldsText.
Qed.

(** C2.  Over the reads of one exchange, started with the placeholder as
    last visible message: the texts handed to [processChunk] are the
    running totals of the deltas received so far, each is written over the
    text of the last message, so that the list never grows and the last
    message ends with the last snapshot. *)
Theorem snapshots_replace_last (r : State) (reads : list Read)
    (prev : list Message) (s : State) :
  st_messages s = prev ++ [streamingPlaceholder] →
  let l := fst (readLoop JSON_parse r reads (mkLoop "" s 0 [])) in
  yielded l = runningTotals "" (deltasOf (receivedFrames JSON_parse reads))
  ∧ st_messages (app l)
    = prev ++ [mkMessage (default "" (last (yielded l))) llm None]
  ∧ length (st_messages (app l)) = length (st_messages s).
Proof.
  intros Hs l.
  destruct (readLoop_locals JSON_parse r reads (mkLoop "" s 0 []))
    as (Hacc & Hyield & _).
  fold l in Hacc, Hyield. simpl in Hacc, Hyield.
  assert (lastHoldsText prev l) as Hlast.
  { apply readLoop_lastHoldsText. unfold lastHoldsText.
    cbn [app accumulatedText]. by rewrite Hs. }
  unfold lastHoldsText in Hlast. split_and!; [done| |].
  - by rewrite Hlast, Hyield, last_runningTotals, Hacc.
  - by rewrite Hlast, Hs, !length_app.
Qed.

End Streaming.

Lemma snapshots_replace_last_witness :
  let s := setMessages (fun _ => [sampleUser "Hello"; streamingPlaceholder])
             initialState in
  let l := fst (readLoop readJson s helloFrames (mkLoop "" s 0 [])) in
  yielded l = ["Hi"; "Hi there"]
  ∧ st_messages (app l) = [sampleUser "Hello"; sampleReply "Hi there"].
Proof.
  intros s l.
  destruct (snapshots_replace_last readJson s helloFrames [sampleUser "Hello"] s)
    as (Hy & Hm & _); [reflexivity|].
  fold l in Hy, Hm. split.
  - rewrite Hy. vm_compute. reflexivity.
  - rewrite Hm, Hy. vm_compute. reflexivity.
Defined.

(** ** Chunk boundaries *)

Lemma splitLines_line (line rest : string) :
  noNewline line = true →
  splitLines (line +:+ String newline rest) = line :: splitLines rest.
Proof.
  induction line as [|c line IH]; intros Hline; [done|].
  cbn [noNewline] in Hline. apply andb_prop in Hline as [Hc Hline].
  change (String c line +:+ String newline rest)
    with (String c (line +:+ String newline rest)).
  cbn [splitLines]. rewrite IH by done.
  by destruct (nat_of_ascii c =? 10)%nat.
Qed.

Lemma splitLines_joinLines (lines : list string) :
  forallb noNewline lines = true →
  splitLines (joinLines lines) = lines ++ [""].
Proof.
  induction lines as [|line rest IH]; intros Hlines; [done|].
  simpl in Hlines. apply andb_prop in Hlines as [Hline Hrest].
  cbn [joinLines]. rewrite splitLines_line by done. by rewrite IH.
Qed.

Lemma prefix_slice (p s : string) :
  String.prefix p s = true → s = p +:+ slice (String.length p) s.
Proof.
  revert s. induction p as [|a p IH]; intros s; [done|].
  destruct s as [|b s]; [done|]. simpl.
  destruct (ascii_dec a b) as [->|]; [|done].
  intros Hp. rewrite (IH s Hp) at 1. reflexivity.
Qed.

Section Chunking.

Variable JSON_parse : string -> option json.

Lemma classify_sentinel (line : string) :
  classify JSON_parse line = Sentinel ↔ line = sentinelLine.
Proof.
  split.
  - unfold classify.
    destruct (String.prefix "data: " line) eqn:Hp; [|done].
    destruct (String.eqb_spec (slice 6 line) doneSentinel) as [Hd|_].
    + intros _. apply prefix_slice in Hp. rewrite Hp. simpl in *.
      by rewrite Hd.
    + destruct (JSON_parse _) as [parsed|]; [|done].
      destruct (deltaContent parsed) as [[delta|]|]; try done.
      by destruct (toBoolean _).
  - by intros ->.
Qed.

Lemma classify_eqb (line : string) :
  String.eqb line sentinelLine = false → classify JSON_parse line ≠ Sentinel.
Proof.
  intros Hne Hc. apply classify_sentinel in Hc.
  by rewrite Hc, String.eqb_refl in Hne.
Qed.

Lemma parsedFrames_cons_other (line : string) (rest : list string) :
  String.eqb line sentinelLine = false →
  parsedFrames JSON_parse (line :: rest)
  = parsedFrames JSON_parse [line] ++ parsedFrames JSON_parse rest.
Proof.
  intros Hne. apply classify_eqb in Hne. simpl.
  by destruct (classify JSON_parse line).
Qed.



End Chunking.

Section ChunkingTheorem.

Variable JSON_parse : string -> option json.





End ChunkingTheorem.



(** ** The request payload *)

Lemma imagesOf_history (l : list Message) :
  imagesOf (map (fun msg => mkApiMessage (roleOf msg) (PlainText (text msg))) l)
  = [].
Proof. induction l as [|m l IH]; [done|]. simpl. apply IH. Qed.

Lemma imagesOf_app (a b : list ApiMessage) :
  imagesOf (a ++ b) = imagesOf a ++ imagesOf b.
Proof. unfold imagesOf. apply flat_map_app. Qed.


(** ** The first submission of a session *)

Lemma updateCurrentConversation_stale (r : State) (now : Z)
    (newMessages : list Message) (s : State) :
  truthy (st_currentConversationId r) = false →
  updateCurrentConversation r now newMessages s = s.
Proof. intros Hr. unfold updateCurrentConversation. by rewrite Hr. Qed.

(** The callback of the timer of line 171 never changes anything: it is
    scheduled by a render without current conversation and tests the
    current id of that same render. *)
Lemma submitTimer_noop (r : State) (timerNow : Z) (s : State) :
  submitTimer r timerNow s = s.
Proof.
  unfold submitTimer.
  destruct (truthy (st_currentConversationId r)) eqn:Hr; [done|].
  by apply updateCurrentConversation_stale.
Qed.

Section FirstSubmission.

Variable env_LM_STUDIO_URL env_MODEL_NAME : option string.
Variable JSON_parse : string -> option json.
Variable nullReadMessage : string.

Lemma forLines_stale (r : State) (now : Z) (lines : list string) (l : Loop) :
  truthy (st_currentConversationId r) = false →
  st_conversations (app (forLines JSON_parse r now lines l))
  = st_conversations (app l).
Proof.
  intros Hr. revert l. induction lines as [|line rest IH]; intros l; [done|].
  rewrite forLines_cons.
  destruct (classify JSON_parse line) as [| | | |d];
    [apply IH|done|apply (IH (logError l))|apply IH|].
  rewrite IH. cbn [app]. unfold processChunk.
  destruct (0 <? length _)%nat; [|done].
  by rewrite updateCurrentConversation_stale.
Qed.

Lemma readLoop_stale (r : State) (reads : list Read) (l : Loop) :
  truthy (st_currentConversationId r) = false →
  st_conversations (app (fst (readLoop JSON_parse r reads l)))
  = st_conversations (app l).
Proof.
  intros Hr. revert l.
  induction reads as [|[now chunk|message] rest IH]; intros l; simpl;
    [done| |done].
  by rewrite IH, forLines_stale.
Qed.

(** Whatever the network answers, a submission made without current
    conversation ends with the created conversation as it was created:
    untitled and without messages. *)
Lemma first_submission_conversations (r : State) (now timerNow : Z)
    (fetch : Request -> FetchOutcome) (s : State) :
  truthy (st_currentConversationId r) = false →
  nonEmpty (trim (st_inputText r)) || truthy (st_selectedImage r) = true →
  st_conversations
    (handleSubmit env_LM_STUDIO_URL env_MODEL_NAME JSON_parse nullReadMessage
       r now timerNow fetch s)
  = newConversation now :: st_conversations s.
Proof.
  intros Hr Hguard. unfold handleSubmit.
  apply orb_true_iff in Hguard.
  replace (negb (nonEmpty (trim (st_inputText r)))
           && negb (truthy (st_selectedImage r))) with false
    by (destruct Hguard as [-> | ->]; simpl; by rewrite ?andb_false_r).
  rewrite submitTimer_noop. unfold afterFetch.
  assert (st_conversations (submitSync r now s)
          = newConversation now :: st_conversations s) as Hsync.
  { unfold submitSync. by rewrite Hr. }
  destruct (fetch _) as [message|status body]; [done|].
  destruct (responseOk status); [|done].
  destruct body as [reads|]; [|done].
  pose proof (readLoop_stale r reads (mkLoop "" (submitSync r now s) 0 []) Hr)
    as Hloop.
  destruct (readLoop _ _ _ _) as [l [message|]]; simpl in *; by rewrite Hloop.
Qed.

End FirstSubmission.

(** C1 at the failing input: "Hello" is submitted in a session without
    current conversation and the three frames arrive.  One conversation
    is created, the assistant message ends as "Hi there" and streaming is
    off; but the conversation is still titled "New Conversation" and has
    no message, and the user message is no longer in the visible list. *)
Theorem first_hello_leaves_conversation_empty :
  let r := setInputText "Hello" initialState in
  let s' :=
    handleSubmit None None readJson v8NullRead r 1000 1000
      (fun _ => FetchResponse 200 (Some helloFrames)) r in
  st_conversations s' = [mkConversation "1000" "New Conversation" [] 1000 1000]
  ∧ st_currentConversationId s' = Some "1000"
  ∧ st_messages s' = [mkMessage "Hi there" llm None]
  ∧ st_isStreaming s' = false.
Proof. vm_compute. split_and!; reflexivity. Qed.

(** ** The error path *)

Lemma replaceOrPush_placeholder (e : Message) (base : list Message) :
  replaceOrPush e (base ++ [streamingPlaceholder]) = base ++ [e].
Proof.
  unfold replaceOrPush. rewrite lookup_last_snoc. simpl.
  apply insert_last_snoc.
Qed.

Lemma replaceOrPush_partial (e m : Message) (base : list Message) :
  text m ≠ "" → replaceOrPush e (base ++ [m]) = base ++ [m; e].
Proof.
  intros Hm. unfold replaceOrPush. rewrite lookup_last_snoc.
  rewrite eqb_empty_false by done. by rewrite <- app_assoc.
Qed.

Lemma st_messages_submitSync (r : State) (now : Z) (s : State) :
  st_messages (submitSync r now s) = submittedBase r ++ [streamingPlaceholder].
Proof.
  unfold submitSync, submittedBase.
  destruct (truthy (st_currentConversationId r)); simpl; [|done].
  by rewrite st_messages_updateCurrentConversation.
Qed.


Section ErrorPath.

Variable env_LM_STUDIO_URL env_MODEL_NAME : option string.
Variable JSON_parse : string -> option json.
Variable nullReadMessage : string.


End ErrorPath.


(** When the body is read after partial content was written, the error
    message is added after the partial message. *)
Lemma read_error_appends_message :
  let r := setInputText "Hello" oneConversation in
  let s' :=
    handleSubmit None None readJson v8NullRead r 2000 2000
      (fun _ => FetchResponse 200
                  (Some [Chunk 2001 (hiFrame +:+ String newline "");
                         ReadError "network error"])) r in
  map text (st_messages s')
  = ["Hello"; "Hi";
     "Error: network error. Please ensure LM Studio is running with gemma-3-12b model loaded at http://192.168.1.174:1234/v1/chat/completions."]
  ∧ st_isStreaming s' = false.
Proof. vm_compute. split; reflexivity. Qed.

(** ** The whole exchange *)

Section Exchange.

Variable env_LM_STUDIO_URL env_MODEL_NAME : option string.
Variable JSON_parse : string -> option json.
Variable nullReadMessage : string.

Lemma guard_passes (r : State) :
  nonEmpty (trim (st_inputText r)) || truthy (st_selectedImage r) = true →
  negb (nonEmpty (trim (st_inputText r))) && negb (truthy (st_selectedImage r))
  = false.
Proof.
  intros [-> | ->]%orb_true_iff; simpl; [done|apply andb_false_r].
Qed.

(** Every submission that passes the guard of line 155 ends with
    streaming off, whatever the network answers. *)
Lemma handleSubmit_idle (r : State) (now timerNow : Z)
    (fetch : Request -> FetchOutcome) (s : State) :
  nonEmpty (trim (st_inputText r)) || truthy (st_selectedImage r) = true →
  st_isStreaming
    (handleSubmit env_LM_STUDIO_URL env_MODEL_NAME JSON_parse nullReadMessage
       r now timerNow fetch s)
  = false.
Proof.
  intros Hguard. unfold handleSubmit. rewrite guard_passes by done.
  unfold afterFetch.
  destruct (fetch _) as [message|status body]; [done|].
  destruct (responseOk status); [|done].
  destruct body as [reads|]; [|done].
  by destruct (readLoop _ _ _ _) as [l [message|]].
Qed.

(** An exchange whose body is read to its end leaves as visible list the
    list sent with the request, the placeholder holding all the deltas. *)
Lemma handleSubmit_streamed (r : State) (now timerNow : Z)
    (fetch : Request -> FetchOutcome) (s : State) (status : Z)
    (reads : list Read) :
  nonEmpty (trim (st_inputText r)) || truthy (st_selectedImage r) = true →
  fetch (request env_LM_STUDIO_URL env_MODEL_NAME r)
  = FetchResponse status (Some reads) →
  responseOk status = true →
  snd (readLoop JSON_parse r reads (mkLoop "" (submitSync r now s) 0 [])) = None →
  st_messages
    (handleSubmit env_LM_STUDIO_URL env_MODEL_NAME JSON_parse nullReadMessage
       r now timerNow fetch s)
  = submittedBase r
    ++ [mkMessage (total "" (deltasOf (receivedFrames JSON_parse reads)))
          llm None].
Proof.
  intros Hguard Hfetch Hok Hdone. unfold handleSubmit.
  rewrite guard_passes, submitTimer_noop by done.
  unfold afterFetch. rewrite Hfetch, Hok.
  pose proof (readLoop_lastHoldsText JSON_parse r (submittedBase r) reads
                (mkLoop "" (submitSync r now s) 0 [])) as Hlast.
  destruct (readLoop_locals JSON_parse r reads
              (mkLoop "" (submitSync r now s) 0 [])) as (Hacc & _ & _).
  destruct (readLoop _ _ _ _) as [l thrown]. simpl in *. subst thrown.
  unfold lastHoldsText in Hlast. cbn [st_messages setIsStreaming].
  rewrite Hlast, Hacc; [done|]. cbn [app accumulatedText].
  apply st_messages_submitSync.
Qed.

End Exchange.

(** * Further properties of the code *)

(** ** Selecting and deleting conversations *)

Lemma find_id_none (k : string) (l : list Conversation) :
  k ∉ map id l → find (fun c => String.eqb (id c) k) l = None.
Proof.
  induction l as [|c l IH]; simpl; [done|].
  intros Hk. apply not_elem_of_cons in Hk as [Hne Hk].
  destruct (String.eqb_spec (id c) k) as [Heq|_]; [by subst|by apply IH].
Qed.

(** X1.  [selectConversation] with an id that no conversation of the
    render carries changes nothing: neither the current id, nor the
    visible list, nor the sidebar. *)
Theorem selectConversation_unknown (r s : State) (conversationId : string) :
  conversationId ∉ map id (st_conversations r) →
  selectConversation r conversationId s = s.
Proof.
  intros Hk. unfold selectConversation. by rewrite find_id_none.
Qed.

Lemma selectConversation_unknown_witness :
  selectConversation oneConversation "2000" oneConversation = oneConversation.
Proof.
  apply selectConversation_unknown. vm_compute.
  intros Hin. by apply list_elem_of_In in Hin as [|[]].
Defined.

Lemma updated_when_matching (k : string) (now : Z)
    (newMessages : list Message) (conv : Conversation) :
  id conv = k →
  (if strict_eq (Some (id conv)) (Some k)
   then updatedConversation now newMessages conv
   else conv) = updatedConversation now newMessages conv.
Proof. intros ->. by rewrite strict_eq_refl. Qed.

Lemma kept_when_other (k : string) (now : Z)
    (newMessages : list Message) (conv : Conversation) :
  id conv ≠ k →
  (if strict_eq (Some (id conv)) (Some k)
   then updatedConversation now newMessages conv
   else conv) = conv.
Proof.
  intros Hne. unfold strict_eq. by rewrite bool_decide_eq_false_2 by congruence.
Qed.

Lemma find_id_updated (k : string) (now : Z) (newMessages : list Message)
    (l : list Conversation) :
  k ∈ map id l →
  ∃ c, c ∈ l ∧ id c = k
       ∧ find (fun c' => String.eqb (id c') k)
           (map (fun conv =>
                   if strict_eq (Some (id conv)) (Some k)
                   then updatedConversation now newMessages conv
                   else conv) l)
         = Some (updatedConversation now newMessages c).
Proof.
  induction l as [|c l IH]; [by intros ?%elem_of_nil|].
  intros Hk. cbn [map find].
  destruct (decide (id c = k)) as [Heq|Hne].
  - exists c. rewrite updated_when_matching by done.
    split_and!; [apply list_elem_of_here|done|].
    cbn [id updatedConversation]. by rewrite Heq, String.eqb_refl.
  - rewrite kept_when_other by done.
    cbn [map] in Hk. apply elem_of_cons in Hk as [Hk|Hk]; [done|].
    destruct (IH Hk) as (c' & Hin & Hid & Hfind).
    exists c'. split_and!; [by apply list_elem_of_further|done|].
    by destruct (String.eqb_spec (id c) k).
Qed.

(** X2.  Update, then select.  After [updateCurrentConversation], called
    from a render whose current conversation [k] is in the list, selecting
    [k] shows exactly the message list that was stored, makes [k] the
    current conversation and closes the sidebar. *)
Theorem select_after_update (r s : State) (now : Z)
    (newMessages : list Message) (k : string) :
  st_currentConversationId r = Some k →
  k ≠ "" →
  k ∈ map id (st_conversations s) →
  let s1 := updateCurrentConversation r now newMessages s in
  let s2 := selectConversation s1 k s1 in
  st_messages s2 = newMessages
  ∧ st_currentConversationId s2 = Some k
  ∧ st_isSidebarOpen s2 = false.
Proof.
  intros Hcur Hk Hin s1 s2.
  destruct (find_id_updated k now newMessages (st_conversations s) Hin)
    as (c & _ & _ & Hfind).
  assert (find (fun c' => String.eqb (id c') k) (st_conversations s1)
          = Some (updatedConversation now newMessages c)) as Hs1.
  { unfold s1, updateCurrentConversation. rewrite Hcur. unfold truthy.
    by rewrite eqb_empty_false. }
  unfold s2, selectConversation. by rewrite Hs1.
Qed.

Lemma select_after_update_witness :
  let r := oneConversation in
  let s1 := updateCurrentConversation r 1001 [sampleUser "Hello"] r in
  st_messages (selectConversation s1 "1000" s1) = [sampleUser "Hello"].
Proof.
  intros r s1.
  destruct (select_after_update r r 1001 [sampleUser "Hello"] "1000")
    as (Hm & _ & _); [reflexivity|done| |exact Hm].
  vm_compute. apply list_elem_of_here.
Defined.

(** X3.  [deleteConversation] removes every conversation with the given
    id and keeps the others, in their order.  When the id was the current
    one the current id and the visible list are cleared; otherwise both
    are left as they were. *)
Theorem deleteConversation_spec (s : State) (conversationId : string) :
  let s' := deleteConversation s conversationId s in
  (conversationId ∉ map id (st_conversations s'))
  ∧ (∀ c, id c ≠ conversationId →
          (c ∈ st_conversations s' ↔ c ∈ st_conversations s))
  ∧ sublist (st_conversations s') (st_conversations s)
  ∧ (if decide (st_currentConversationId s = Some conversationId)
     then st_currentConversationId s' = None ∧ st_messages s' = []
     else st_currentConversationId s' = st_currentConversationId s
          ∧ st_messages s' = st_messages s).
Proof.
  intros s'.
  assert (st_conversations s'
          = filter (fun c => id c ≠ conversationId) (st_conversations s))
    as Hconvs.
  { unfold s', deleteConversation. by destruct (strict_eq _ _). }
  split_and!.
  - rewrite Hconvs, list_elem_of_fmap. intros (c & Hid & Hc).
    apply list_elem_of_filter in Hc as [Hne _]. by rewrite Hid in Hne.
  - intros c Hc. rewrite Hconvs, list_elem_of_filter.
    split; [by intros [_ ?]|by intros ?; split].
  - rewrite Hconvs. apply sublist_filter.
  - unfold s', deleteConversation, strict_eq.
    destruct (decide (st_currentConversationId s = Some conversationId)).
    + by rewrite bool_decide_eq_true_2.
    + by rewrite bool_decide_eq_false_2.
Qed.

(** ** The session and the store *)

Lemma run_snoc (actions : list Action) (a : Action) (w : World) :
  run (actions ++ [a]) w = commit a (run actions w).
Proof. unfold run. by rewrite foldl_app. Qed.

(** X4.  Along every sequence of sidebar operations and conversation
    updates, whatever render the updates are called from, a session that
    starts with a valid current id keeps it valid: the current id, when
    set, names a conversation of the list. *)
Theorem session_keeps_active_id (actions : list Action) (w : World) :
  activeIdValid (state w) → activeIdValid (state (run actions w)).
Proof.
  intros Hw. induction actions as [|a actions IH] using rev_ind; [done|].
  rewrite run_snoc. by apply act_activeIdValid.
Qed.

Lemma session_keeps_active_id_witness :
  activeIdValid
    (state
       (run [NewChat 1000; NewChat 2000; DeleteChat "2000"; SelectChat "1000";
             UpdateFrom initialState 3000 [sampleUser "Hello"]]
          (mount (mkStorage None None)))).
Proof. apply session_keeps_active_id. exact I. Defined.

Lemma mount_id_stored (st : Storage) :
  ls_currentConversationId (storage (mount st))
  = if truthy (st_currentConversationId (state (mount st)))
    then st_currentConversationId (state (mount st))
    else None.
Proof.
  destruct st as [convs cur]. unfold mount, loadConversations.
  cbn [ls_conversations ls_currentConversationId state storage].
  destruct (truthy cur) eqn:Hcur.
  - assert (∀ s0 : State,
              st_currentConversationId
                match convs with
                | Some (Serialized parsedConversations) =>
                    match find (fun c => strict_eq (Some (id c)) cur)
                            parsedConversations with
                    | Some currentConv =>
                        setMessages (fun _ => messages currentConv)
                          (setCurrentConversationId cur s0)
                    | None => setCurrentConversationId cur s0
                    end
                | Some Unreadable => setCurrentConversationId cur s0
                | None => setCurrentConversationId cur s0
                end = cur) as Hid.
    { intros s0. destruct convs as [[|l]|]; try done. by destruct (find _ _). }
    unfold effectsAfterRender. rewrite !Hid, Hcur.
    destruct cur as [k|]; [|done].
    unfold strict_eq. rewrite bool_decide_eq_false_2 by done.
    unfold saveCurrentConversationId. by rewrite Hid, Hcur.
  - assert (st_currentConversationId
              match convs with
              | Some (Serialized conversationsWithDates) =>
                  setConversations (fun _ => conversationsWithDates) initialState
              | Some Unreadable => initialState
              | None => initialState
              end = None) as Hid.
    { by destruct convs as [[|l]|]. }
    unfold effectsAfterRender. rewrite !Hid. simpl.
    by destruct convs as [[|[|c l]]|].
Qed.

Lemma commit_id_stored (a : Action) (w : World) :
  ls_currentConversationId (storage w)
  = (if truthy (st_currentConversationId (state w))
     then st_currentConversationId (state w)
     else None) →
  ls_currentConversationId (storage (commit a w))
  = if truthy (st_currentConversationId (state (commit a w)))
    then st_currentConversationId (state (commit a w))
    else None.
Proof.
  intros Hw. unfold commit. cbn [state storage]. unfold effectsAfterRender.
  set (s' := act a (state w)).
  assert (∀ st, ls_currentConversationId
                  (if setsConversations a then saveConversations s' st else st)
                = ls_currentConversationId st) as Hkeep.
  { intros st. destruct (setsConversations a); [|done].
    unfold saveConversations. by destruct (0 <? length _)%nat. }
  unfold strict_eq. case_bool_decide as Hsame.
  - by rewrite Hkeep, Hsame.
  - unfold saveCurrentConversationId.
    by destruct (truthy (st_currentConversationId s')).
Qed.

Lemma run_id_stored (actions : list Action) (st : Storage) :
  ls_currentConversationId (storage (run actions (mount st)))
  = if truthy (st_currentConversationId (state (run actions (mount st))))
    then st_currentConversationId (state (run actions (mount st)))
    else None.
Proof.
  induction actions as [|a actions IH] using rev_ind; [apply mount_id_stored|].
  rewrite run_snoc. by apply commit_id_stored.
Qed.

(** The hooks after mounting, read off the store. *)
Lemma mount_state (st : Storage) :
  let stored :=
    match ls_conversations st with
    | Some (Serialized l) => l
    | _ => []
    end in
  let cur := ls_currentConversationId st in
  state (mount st)
  = mkState
      (if truthy cur
       then match find (fun c => strict_eq (Some (id c)) cur) stored with
            | Some currentConv => messages currentConv
            | None => []
            end
       else [])
      "" None None false stored
      (if truthy cur then cur else None) false.
Proof.
  destruct st as [[[|l]|] cur]; unfold mount, loadConversations;
    cbn [state ls_conversations ls_currentConversationId];
    destruct (truthy cur); try done.
  by destruct (find _ l).
Qed.

Lemma falsy_cases (cur : option string) :
  truthy cur = false → cur = None ∨ cur = Some "".
Proof.
  destruct cur as [k|]; [|by left]. simpl.
  intros Hk%negb_false_iff%String.eqb_eq. right. by rewrite Hk.
Qed.

(** X6.  Mounting never alters the stored conversations, and leaves the
    stored current id as it is, apart from deleting an empty one; so
    mounting again from the store that a mount left gives the same hooks
    and the same store. *)
Theorem mount_is_idempotent (st : Storage) :
  storage (mount st)
  = mkStorage (ls_conversations st)
      (if truthy (ls_currentConversationId st)
       then ls_currentConversationId st
       else None)
  ∧ mount (storage (mount st)) = mount st.
Proof.
  assert (storage (mount st)
          = mkStorage (ls_conversations st)
              (if truthy (ls_currentConversationId st)
               then ls_currentConversationId st
               else None)) as Hstore.
  { pose proof (mount_id_stored st) as Hid.
    pose proof (mount_state st) as Hstate. cbn zeta in Hstate.
    rewrite Hstate in Hid. cbn [st_currentConversationId] in Hid.
    assert (ls_conversations (storage (mount st)) = ls_conversations st)
      as Hconvs.
    { unfold mount. cbn [storage]. rewrite ls_conversations_effects.
      change (loadConversations st initialState) with (state (mount st)).
      rewrite Hstate. cbn [st_conversations].
      by destruct st as [[[|[|c l]]|] cur]. }
    destruct (storage (mount st)) as [convs' cur']. simpl in *.
    rewrite Hconvs, Hid.
    by destruct (truthy (ls_currentConversationId st)) eqn:Hcur;
      [rewrite Hcur|]. }
  split; [done|]. rewrite Hstore.
  destruct st as [convs cur]. cbn [ls_conversations ls_currentConversationId].
  destruct (truthy cur) eqn:Hcur; [done|].
  destruct (falsy_cases cur Hcur) as [-> | ->]; [done|].
  by destruct convs as [[|[|c l]]|].
Qed.

(** X5.  Reload.  In every world reached from a mount by sidebar
    operations and conversation updates, mounting again from the store
    gives back the conversation list, when it is not empty, and the
    current id, when it is not empty; the visible list after the reload is
    the stored message list of the current conversation. *)
Theorem reload_restores_session (st : Storage) (actions : list Action) :
  let w := run actions (mount st) in
  let w' := mount (storage w) in
  (st_conversations (state w) ≠ [] →
   st_conversations (state w') = st_conversations (state w))
  ∧ st_currentConversationId (state w')
    = (if truthy (st_currentConversationId (state w))
       then st_currentConversationId (state w)
       else None)
  ∧ (∀ c,
       truthy (st_currentConversationId (state w)) = true →
       find (fun c' => strict_eq (Some (id c')) (st_currentConversationId (state w)))
         (st_conversations (state w)) = Some c →
       st_messages (state w') = messages c).
Proof.
  intros w w'.
  pose proof (run_storeInSync actions st) as Hsync.
  pose proof (run_id_stored actions st) as Hid.
  fold w in Hsync, Hid. unfold storeInSync in Hsync.
  pose proof (mount_state (storage w)) as Hstate. cbn zeta in Hstate.
  fold w' in Hstate.
  assert (truthy (ls_currentConversationId (storage w))
          = truthy (st_currentConversationId (state w))) as Htruthy.
  { rewrite Hid. by destruct (truthy (st_currentConversationId (state w))) eqn:E. }
  split_and!.
  - intros Hne. rewrite Hstate. cbn [st_conversations]. by rewrite Hsync.
  - rewrite Hstate. cbn [st_currentConversationId]. rewrite Htruthy, Hid.
    by destruct (truthy (st_currentConversationId (state w))).
  - intros c Hcur Hfind.
    assert (st_conversations (state w) ≠ []) as Hne.
    { intros Hnil. by rewrite Hnil in Hfind. }
    rewrite Hstate. cbn [st_messages].
    rewrite Htruthy, Hcur, Hsync, Hid, Hcur by done. by rewrite Hfind.
Qed.

(** ** Titles *)

Lemma length_string_app (a b : string) :
  String.length (a +:+ b) = (String.length a + String.length b)%nat.
Proof. induction a as [|c a IH]; simpl; [done|by rewrite IH]. Qed.

Lemma length_substring0 (n : nat) (s : string) :
  String.length (String.substring 0 n s) = (n `min` String.length s)%nat.
Proof.
  revert s. induction n as [|n IH]; intros [|c s]; simpl; try done.
  by rewrite IH.
Qed.

Lemma substring0_app (n : nat) (a b : string) :
  (n <= String.length a)%nat →
  String.substring 0 n (a +:+ b) = String.substring 0 n a.
Proof.
  revert a. induction n as [|n IH]; intros a Hn; [by destruct a, b|].
  destruct a as [|c a]; simpl in *; [lia|].
  rewrite IH; [done|lia].
Qed.

Lemma substring0_twice (n : nat) (s : string) :
  String.substring 0 n (String.substring 0 n s) = String.substring 0 n s.
Proof.
  revert s. induction n as [|n IH]; intros [|c s]; simpl; try done.
  by rewrite IH.
Qed.

(** X7.  A generated title has at most 33 characters: a text of at most
    30 characters is its own title, a longer one gives a title of exactly
    33 characters; in both cases the title and the text agree on their
    first 30 characters. *)
Theorem generateConversationTitle_bound (firstMessage : string) :
  String.length (generateConversationTitle firstMessage)
  = (if (30 <? String.length firstMessage)%nat
     then 33%nat
     else String.length firstMessage)
  ∧ (String.length (generateConversationTitle firstMessage) <= 33)%nat
  ∧ String.substring 0 30 (generateConversationTitle firstMessage)
    = String.substring 0 30 firstMessage.
Proof.
  unfold generateConversationTitle.
  destruct (Nat.ltb_spec 30 (String.length firstMessage)) as [Hlong|Hshort].
  - rewrite length_string_app, length_substring0, Nat.min_l by lia.
    change (String.length "...") with 3%nat.
    split_and!; [lia|lia|].
    rewrite substring0_app by (rewrite length_substring0; lia).
    apply substring0_twice.
  - split_and!; [done|lia|done].
Qed.

(** ** What is sent upstream *)

Lemma trimStart_blank (s : string) :
  allWhiteSpace s = true → trimStart s = "".
Proof.
  induction s as [|c s IH]; simpl; [done|].
  intros [-> Hs]%andb_prop. by apply IH.
Qed.

Lemma trim_blank (s : string) : allWhiteSpace s = true → trim s = "".
Proof. intros Hs. unfold trim. by rewrite trimStart_blank. Qed.

Section Guard.

Variable env_LM_STUDIO_URL env_MODEL_NAME : option string.
Variable JSON_parse : string -> option json.
Variable nullReadMessage : string.

(** X17.  A submission whose text is empty or made of white space only,
    with no image selected, changes nothing and sends nothing: [fetch] is
    not consulted and the live state is returned as it is. *)
Theorem blank_submission_ignored (r : State) (now timerNow : Z)
    (fetch1 fetch2 : Request -> FetchOutcome) (s : State) :
  allWhiteSpace (st_inputText r) = true →
  truthy (st_selectedImage r) = false →
  handleSubmit env_LM_STUDIO_URL env_MODEL_NAME JSON_parse nullReadMessage
    r now timerNow fetch1 s = s
  ∧ handleSubmit env_LM_STUDIO_URL env_MODEL_NAME JSON_parse nullReadMessage
      r now timerNow fetch1 s
    = handleSubmit env_LM_STUDIO_URL env_MODEL_NAME JSON_parse nullReadMessage
        r now timerNow fetch2 s.
Proof.
  intros Hblank Himage. unfold handleSubmit.
  by rewrite trim_blank, Himage.
Qed.

End Guard.

Lemma blank_submission_ignored_witness :
  let r := setInputText "   " oneConversation in
  handleSubmit None None readJson v8NullRead r 2000 2000
    (fun _ => modelNotLoaded) r = r.
Proof.
  intros r.
  by destruct (blank_submission_ignored None None readJson v8NullRead r
                 2000 2000 (fun _ => modelNotLoaded) (fun _ => modelNotLoaded) r)
    as [Hsame _].
Defined.




(** ** What an exchange writes into the conversations *)

Lemma update_matching (r : State) (now : Z) (newMessages : list Message)
    (s : State) (c : Conversation) :
  truthy (st_currentConversationId r) = true →
  c ∈ st_conversations (updateCurrentConversation r now newMessages s) →
  Some (id c) = st_currentConversationId r →
  messages c = newMessages ∧ updatedAt c = now.
Proof.
  intros Hr Hc Hid. unfold updateCurrentConversation in Hc. rewrite Hr in Hc.
  cbn [st_conversations setConversations] in Hc.
  apply list_elem_of_fmap in Hc as (c0 & -> & _).
  unfold strict_eq in *. case_bool_decide as Hmatch; [done|].
  by rewrite Hid in Hmatch.
Qed.

Lemma update_others (r : State) (now : Z) (newMessages : list Message)
    (s : State) :
  filter (fun c => Some (id c) ≠ st_currentConversationId r)
    (st_conversations (updateCurrentConversation r now newMessages s))
  = filter (fun c => Some (id c) ≠ st_currentConversationId r)
      (st_conversations s).
Proof.
  unfold updateCurrentConversation. destruct (truthy _); [|done].
  cbn [st_conversations setConversations].
  induction (st_conversations s) as [|c l IH]; [done|].
  cbn [map]. unfold strict_eq at 1. case_bool_decide as Hmatch.
  - rewrite filter_cons_False by (cbn [id updatedConversation]; tauto).
    rewrite filter_cons_False by tauto. apply IH.
  - rewrite !filter_cons_True by done. by rewrite IH.
Qed.

(** X12.  When the submitting render has a current conversation, every
    chunk writes the whole visible list, with the snapshot as text of its
    last message, into each conversation that carries the id of that
    render, whatever list is visible at that moment, and stamps it with
    the clock reading; the other conversations are not touched. *)
Theorem processChunk_saves_visible_list (r : State) (now : Z) (t : string)
    (s : State) :
  truthy (st_currentConversationId r) = true →
  st_messages s ≠ [] →
  let s' := processChunk r now t s in
  st_messages s' = replaceLastText t (st_messages s)
  ∧ (∀ c, c ∈ st_conversations s' →
          Some (id c) = st_currentConversationId r →
          messages c = st_messages s' ∧ updatedAt c = now)
  ∧ filter (fun c => Some (id c) ≠ st_currentConversationId r)
      (st_conversations s')
    = filter (fun c => Some (id c) ≠ st_currentConversationId r)
        (st_conversations s).
Proof.
  intros Hr Hne s'.
  assert ((0 <? length (replaceLastText t (st_messages s)))%nat = true) as Hlen.
  { rewrite length_replaceLastText. destruct (st_messages s); [done|]. done. }
  assert (st_conversations s'
          = st_conversations
              (updateCurrentConversation r now
                 (replaceLastText t (st_messages s)) s)) as Hconvs.
  { unfold s', processChunk. by rewrite Hlen. }
  split_and!.
  - apply st_messages_processChunk.
  - intros c Hc Hid. rewrite Hconvs in Hc. unfold s'.
    rewrite st_messages_processChunk. by eapply update_matching.
  - rewrite Hconvs. apply update_others.
Qed.

Lemma processChunk_saves_visible_list_witness :
  let submitting :=
    snd (createNewConversation 2000
           (updateCurrentConversation oneConversation 1500
              [sampleUser "old question"; sampleReply "old answer"]
              oneConversation)) in
  let shown := selectConversation submitting "1000" submitting in
  let s' := processChunk submitting 2001 "new text" shown in
  truthy (st_currentConversationId submitting) = true
  ∧ st_messages shown ≠ []
  ∧ (∀ c, c ∈ st_conversations s' →
          Some (id c) = st_currentConversationId submitting →
          messages c = st_messages s' ∧ updatedAt c = 2001).
Proof.
  intros submitting shown s'. split; [reflexivity|]. split; [done|].
  apply (processChunk_saves_visible_list submitting 2001 "new text" shown);
    [reflexivity|done].
Defined.

(** A chunk that arrives while another conversation is shown: the list of
    the conversation shown, with the new text as its last message, is
    stored under the conversation of the exchange. *)
Lemma chunk_while_other_conversation_shown :
  let submitting :=
    snd (createNewConversation 2000
           (updateCurrentConversation oneConversation 1500
              [sampleUser "old question"; sampleReply "old answer"]
              oneConversation)) in
  let shown := selectConversation submitting "1000" submitting in
  map (fun c => (id c, map text (messages c)))
    (st_conversations (processChunk submitting 2001 "new text" shown))
  = [("2000", ["old question"; "new text"]);
     ("1000", ["old question"; "old answer"])].
Proof. vm_compute. reflexivity. Qed.

Section ExchangeWrites.

Variable env_LM_STUDIO_URL env_MODEL_NAME : option string.
Variable JSON_parse : string -> option json.
Variable nullReadMessage : string.

Lemma forLines_others (r : State) (now : Z) (lines : list string) (l : Loop) :
  filter (fun c => Some (id c) ≠ st_currentConversationId r)
    (st_conversations (app (forLines JSON_parse r now lines l)))
  = filter (fun c => Some (id c) ≠ st_currentConversationId r)
      (st_conversations (app l))
  ∧ st_currentConversationId (app (forLines JSON_parse r now lines l))
    = st_currentConversationId (app l).
Proof.
  revert l. induction lines as [|line rest IH]; intros l; [done|].
  rewrite forLines_cons.
  destruct (classify JSON_parse line) as [| | | |d];
    [apply IH|done|apply (IH (logError l))|apply IH|].
  destruct (IH (mkLoop (accumulatedText l +:+ d)
                  (processChunk r now (accumulatedText l +:+ d) (app l))
                  (logged l) (yielded l ++ [accumulatedText l +:+ d])))
    as [-> ->].
  cbn [app]. unfold processChunk.
  destruct (0 <? length _)%nat; [|done]. split.
  - apply update_others.
  - cbn [st_currentConversationId setMessages].
    unfold updateCurrentConversation. by destruct (truthy _).
Qed.

Lemma readLoop_others (r : State) (reads : list Read) (l : Loop) :
  filter (fun c => Some (id c) ≠ st_currentConversationId r)
    (st_conversations (app (fst (readLoop JSON_parse r reads l))))
  = filter (fun c => Some (id c) ≠ st_currentConversationId r)
      (st_conversations (app l))
  ∧ st_currentConversationId (app (fst (readLoop JSON_parse r reads l)))
    = st_currentConversationId (app l).
Proof.
  revert l. induction reads as [|[now chunk|message] rest IH]; intros l;
    simpl; [done| |done].
  destruct (IH (forLines JSON_parse r now (splitLines chunk) l)) as [-> ->].
  apply forLines_others.
Qed.

(** X14.  A submission made from a render with a current conversation,
    whatever the network answers, leaves every conversation with another
    id exactly as it was, keeps the ids of the list and does not change
    the current id. *)
Theorem exchange_touches_only_current (r : State) (now timerNow : Z)
    (fetch : Request -> FetchOutcome) (s : State) :
  truthy (st_currentConversationId r) = true →
  let s' :=
    handleSubmit env_LM_STUDIO_URL env_MODEL_NAME JSON_parse nullReadMessage
      r now timerNow fetch s in
  filter (fun c => Some (id c) ≠ st_currentConversationId r)
    (st_conversations s')
  = filter (fun c => Some (id c) ≠ st_currentConversationId r)
      (st_conversations s)
  ∧ st_currentConversationId s' = st_currentConversationId s.
Proof.
  intros Hr s'. unfold s', handleSubmit.
  destruct (negb _ && negb _); [done|].
  rewrite submitTimer_noop.
  assert (filter (fun c => Some (id c) ≠ st_currentConversationId r)
            (st_conversations (submitSync r now s))
          = filter (fun c => Some (id c) ≠ st_currentConversationId r)
              (st_conversations s)
          ∧ st_currentConversationId (submitSync r now s)
            = st_currentConversationId s) as [Hsync Hcur].
  { unfold submitSync. rewrite Hr. cbn [negb].
    cbn [st_conversations st_currentConversationId setMessages setIsStreaming
           setImagePreviewUrl setSelectedImage setInputText].
    split.
    - exact (update_others r now (st_messages r ++ [userMessage r])
               (setMessages (fun _ => st_messages r ++ [userMessage r]) s)).
    - unfold updateCurrentConversation. by rewrite Hr. }
  unfold afterFetch.
  destruct (fetch _) as [message|status body]; [done|].
  destruct (responseOk status); [|done].
  destruct body as [reads|]; [|done].
  destruct (readLoop_others r reads (mkLoop "" (submitSync r now s) 0 []))
    as [Hloop Hloopcur].
  cbn [app] in Hloop, Hloopcur.
  destruct (readLoop _ _ _ _) as [l [message|]]; cbn [fst] in *;
    cbn [st_conversations st_currentConversationId catchError setMessages
           setIsStreaming]; by rewrite Hloop, Hloopcur.
Qed.

End ExchangeWrites.

Lemma exchange_touches_only_current_witness :
  let r :=
    setInputText "Hello"
      (snd (createNewConversation 2000
              (updateCurrentConversation oneConversation 1500
                 [sampleUser "old question"; sampleReply "old answer"]
                 oneConversation))) in
  let s' :=
    handleSubmit None None readJson v8NullRead r 3000 3000
      (fun _ => FetchResponse 200 (Some helloFrames)) r in
  filter (fun c => Some (id c) ≠ Some "2000") (st_conversations s')
  = [mkConversation "1000" "old question"
       [sampleUser "old question"; sampleReply "old answer"] 1000 1500].
Proof.
  intros r s'.
  destruct (exchange_touches_only_current None None readJson v8NullRead
              r 3000 3000 (fun _ => FetchResponse 200 (Some helloFrames)) r)
    as [Hothers _]; [reflexivity|].
  fold s' in Hothers. exact Hothers.
Defined.

Lemma processChunk_matching (r : State) (now : Z) (t : string) (s : State)
    (c : Conversation) :
  truthy (st_currentConversationId r) = true →
  st_messages s ≠ [] →
  c ∈ st_conversations (processChunk r now t s) →
  Some (id c) = st_currentConversationId r →
  messages c = st_messages (processChunk r now t s).
Proof.
  intros Hr Hne Hc Hid. rewrite st_messages_processChunk.
  assert ((0 <? length (replaceLastText t (st_messages s)))%nat = true) as Hlen.
  { rewrite length_replaceLastText. destruct (st_messages s); [done|]. done. }
  unfold processChunk in Hc. rewrite Hlen in Hc.
  cbn [st_conversations setMessages] in Hc. by eapply update_matching.
Qed.

Lemma processChunk_nonempty (r : State) (now : Z) (t : string) (s : State) :
  st_messages s ≠ [] → st_messages (processChunk r now t s) ≠ [].
Proof.
  intros Hne. rewrite st_messages_processChunk. intros Hnil.
  apply (f_equal length) in Hnil. rewrite length_replaceLastText in Hnil.
  by destruct (st_messages s).
Qed.

Section StoredExchange.

Variable env_LM_STUDIO_URL env_MODEL_NAME : option string.
Variable JSON_parse : string -> option json.
Variable nullReadMessage : string.

(** During the loop, the conversations of the submitting render hold the
    list [base] until the first snapshot and the visible list from then
    on. *)
Lemma forLines_stored (r : State) (base : list Message) (now : Z)
    (lines : list string) (l : Loop) :
  truthy (st_currentConversationId r) = true →
  st_messages (app l) ≠ [] →
  (∀ c, c ∈ st_conversations (app l) →
        Some (id c) = st_currentConversationId r →
        messages c = match yielded l with
                     | [] => base
                     | _ :: _ => st_messages (app l)
                     end) →
  let l' := forLines JSON_parse r now lines l in
  st_messages (app l') ≠ []
  ∧ (∀ c, c ∈ st_conversations (app l') →
          Some (id c) = st_currentConversationId r →
          messages c = match yielded l' with
                       | [] => base
                       | _ :: _ => st_messages (app l')
                       end).
Proof.
  intros Hr. revert l. induction lines as [|line rest IH]; intros l Hne Hl;
    [done|].
  cbn zeta. rewrite forLines_cons.
  destruct (classify JSON_parse line) as [| | | |d];
    [by apply IH|done|by apply (IH (logError l))|by apply IH|].
  apply IH; cbn [app yielded].
  - by apply processChunk_nonempty.
  - intros c Hc Hid.
    rewrite (processChunk_matching r now _ (app l) c Hr Hne Hc Hid).
    by destruct (yielded l).
Qed.

Lemma readLoop_stored (r : State) (base : list Message) (reads : list Read)
    (l : Loop) :
  truthy (st_currentConversationId r) = true →
  st_messages (app l) ≠ [] →
  (∀ c, c ∈ st_conversations (app l) →
        Some (id c) = st_currentConversationId r →
        messages c = match yielded l with
                     | [] => base
                     | _ :: _ => st_messages (app l)
                     end) →
  let l' := fst (readLoop JSON_parse r reads l) in
  ∀ c, c ∈ st_conversations (app l') →
       Some (id c) = st_currentConversationId r →
       messages c = match yielded l' with
                    | [] => base
                    | _ :: _ => st_messages (app l')
                    end.
Proof.
  intros Hr. revert l.
  induction reads as [|[now chunk|message] rest IH]; intros l Hne Hl;
    simpl; [done| |done].
  destruct (forLines_stored r base now (splitLines chunk) l Hr Hne Hl)
    as [Hne' Hl'].
  by apply IH.
Qed.

(** X13.  An exchange in a conversation that exists, with the body read
    to its end.  When at least one delta arrived, every conversation with
    the id of the submitting render ends holding exactly the visible
    list, the assistant message included; when none arrived it holds the
    history with the user message, without the placeholder that is
    visible. *)
Theorem streamed_exchange_is_stored (r : State) (now timerNow : Z)
    (fetch : Request -> FetchOutcome) (s : State) (status : Z)
    (reads : list Read) :
  truthy (st_currentConversationId r) = true →
  submittable r = true →
  fetch (request env_LM_STUDIO_URL env_MODEL_NAME r)
  = FetchResponse status (Some reads) →
  responseOk status = true →
  snd (readLoop JSON_parse r reads (mkLoop "" (submitSync r now s) 0 [])) = None →
  let s' :=
    handleSubmit env_LM_STUDIO_URL env_MODEL_NAME JSON_parse nullReadMessage
      r now timerNow fetch s in
  ∀ c, c ∈ st_conversations s' →
       Some (id c) = st_currentConversationId r →
       messages c
       = match deltasOf (receivedFrames JSON_parse reads) with
         | [] => st_messages r ++ [userMessage r]
         | _ :: _ => st_messages s'
         end.
Proof.
  intros Hr Hguard Hfetch Hok Hdone s'.
  assert (s' = setIsStreaming false
                 (app (fst (readLoop JSON_parse r reads
                              (mkLoop "" (submitSync r now s) 0 [])))))
    as Hs'.
  { unfold s', handleSubmit. unfold submittable in Hguard.
    rewrite guard_passes, submitTimer_noop by done.
    unfold afterFetch. rewrite Hfetch, Hok.
    destruct (readLoop _ _ _ _) as [l thrown]. simpl in *. by subst thrown. }
  pose proof (readLoop_stored r (st_messages r ++ [userMessage r]) reads
                (mkLoop "" (submitSync r now s) 0 []) Hr) as Hloop.
  destruct (readLoop_locals JSON_parse r reads
              (mkLoop "" (submitSync r now s) 0 [])) as (_ & Hyield & _).
  cbn [app yielded accumulatedText] in Hloop, Hyield.
  rewrite Hs'. cbn [st_conversations st_messages setIsStreaming].
  intros c Hc Hid.
  rewrite (Hloop) by first
    [ rewrite st_messages_submitSync; by destruct (submittedBase r)
    | done
    | intros c0 Hc0 Hid0; unfold submitSync in Hc0; rewrite Hr in Hc0;
      cbn [negb st_conversations setMessages setIsStreaming setImagePreviewUrl
             setSelectedImage setInputText] in Hc0;
      by eapply update_matching ].
  rewrite Hyield. cbn [List.app].
  by destruct (deltasOf (receivedFrames JSON_parse reads)).
Qed.

End StoredExchange.

Lemma streamed_exchange_is_stored_witness :
  let r := setInputText "Hello" oneConversation in
  let s' :=
    handleSubmit None None readJson v8NullRead r 2000 2000
      (fun _ => FetchResponse 200 (Some helloFrames)) r in
  Forall (fun c => Some (id c) = Some "1000" →
                   messages c = [sampleUser "Hello"; sampleReply "Hi there"])
    (st_conversations s').
Proof.
  intros r s'. apply Forall_forall. intros c Hc Hid.
  rewrite (streamed_exchange_is_stored None None readJson v8NullRead
             r 2000 2000 (fun _ => FetchResponse 200 (Some helloFrames)) r
             200 helloFrames) by done.
  reflexivity.
Defined.

(** ** Failures *)

Section Failures.

Variable env_LM_STUDIO_URL env_MODEL_NAME : option string.
Variable JSON_parse : string -> option json.
Variable nullReadMessage : string.

(** X9.  When [fetch] rejects (the network cannot be reached), the empty
    placeholder is replaced by one message that carries the message of
    the rejection, the model name and the endpoint; the conversations are
    those present when the request was sent, so the error text is in no
    conversation; the input and the selected image are cleared and
    streaming is off. *)
Theorem network_failure_replaces_placeholder (r s : State) (now timerNow : Z)
    (fetch : Request -> FetchOutcome) (message : string) :
  submittable r = true →
  fetch (request env_LM_STUDIO_URL env_MODEL_NAME r) = FetchRejected message →
  let s' :=
    handleSubmit env_LM_STUDIO_URL env_MODEL_NAME JSON_parse nullReadMessage
      r now timerNow fetch s in
  st_messages s'
  = submittedBase r
    ++ [mkMessage
          ("Error: " +:+ message
           +:+ ". Please ensure LM Studio is running with "
           +:+ MODEL_NAME env_MODEL_NAME
           +:+ " model loaded at " +:+ API_BASE_URL env_LM_STUDIO_URL
           +:+ "/chat/completions.")
          llm None]
  ∧ st_conversations s' = st_conversations (submitSync r now s)
  ∧ st_inputText s' = ""
  ∧ st_selectedImage s' = None
  ∧ st_imagePreviewUrl s' = None
  ∧ st_isStreaming s' = false.
Proof.
  intros Hguard Hfetch s'. unfold submittable in Hguard.
  assert (s' = catchError env_LM_STUDIO_URL env_MODEL_NAME message
                 (submitSync r now s)) as ->.
  { unfold s', handleSubmit. rewrite guard_passes, submitTimer_noop by done.
    unfold afterFetch. by rewrite Hfetch. }
  unfold catchError. cbn [st_messages setMessages setIsStreaming].
  rewrite st_messages_submitSync, replaceOrPush_placeholder.
  split_and!; done.
Qed.

(** X10.  When a read of the body is rejected, the text received so far
    is kept: if it is empty the placeholder is replaced by the error
    message, otherwise the error message is added after the partial
    assistant message. *)
Theorem read_failure_keeps_partial_text (r s : State) (now timerNow : Z)
    (fetch : Request -> FetchOutcome) (status : Z) (reads : list Read)
    (message : string) :
  submittable r = true →
  fetch (request env_LM_STUDIO_URL env_MODEL_NAME r)
  = FetchResponse status (Some reads) →
  responseOk status = true →
  snd (readLoop JSON_parse r reads (mkLoop "" (submitSync r now s) 0 []))
  = Some message →
  let s' :=
    handleSubmit env_LM_STUDIO_URL env_MODEL_NAME JSON_parse nullReadMessage
      r now timerNow fetch s in
  let partial := total "" (deltasOf (receivedFrames JSON_parse reads)) in
  st_messages s'
  = (if String.eqb partial ""
     then submittedBase r
          ++ [errorMessage env_LM_STUDIO_URL env_MODEL_NAME message]
     else submittedBase r
          ++ [mkMessage partial llm None;
              errorMessage env_LM_STUDIO_URL env_MODEL_NAME message])
  ∧ st_isStreaming s' = false.
Proof.
  intros Hguard Hfetch Hok Hthrown s' partial. unfold submittable in Hguard.
  pose proof (readLoop_lastHoldsText JSON_parse r (submittedBase r) reads
                (mkLoop "" (submitSync r now s) 0 [])) as Hlast.
  destruct (readLoop_locals JSON_parse r reads
              (mkLoop "" (submitSync r now s) 0 [])) as (Hacc & _ & _).
  assert (s' = catchError env_LM_STUDIO_URL env_MODEL_NAME message
                 (app (fst (readLoop JSON_parse r reads
                              (mkLoop "" (submitSync r now s) 0 [])))))
    as ->.
  { unfold s', handleSubmit. rewrite guard_passes, submitTimer_noop by done.
    unfold afterFetch. rewrite Hfetch, Hok.
    destruct (readLoop _ _ _ _) as [l thrown]. simpl in *. by subst thrown. }
  unfold lastHoldsText in Hlast. cbn [app accumulatedText] in Hlast, Hacc.
  unfold catchError. cbn [st_messages setMessages setIsStreaming
                            st_isStreaming].
  split; [|done].
  rewrite Hlast by apply st_messages_submitSync. rewrite Hacc. fold partial.
  destruct (String.eqb_spec partial "") as [->|Hne].
  - apply replaceOrPush_placeholder.
  - by apply replaceOrPush_partial.
Qed.

(** A response with a status outside 200-299 whose body cannot be
    read as JSON (no body, a rejected read, a text that does not parse)
    raises the error with the status and the text
    "No additional error info". *)
Theorem unreadable_error_body (status : Z) (body : option (list Read)) :
  match body with
  | Some reads =>
      match bodyText reads with
      | Some t => JSON_parse t = None
      | None => True
      end
  | None => True
  end →
  httpErrorMessage JSON_parse nullReadMessage status body
  = "HTTP error! Status: " +:+ pretty status +:+ ". No additional error info".
Proof.
  intros Hbody. unfold httpErrorMessage, errorData.
  destruct body as [reads|]; [|done].
  destruct (bodyText reads) as [t|]; [|done]. by rewrite Hbody.
Qed.

End Failures.

Lemma network_failure_replaces_placeholder_witness :
  let r := setInputText "Hello" oneConversation in
  let s' :=
    handleSubmit None None readJson v8NullRead r 2000 2000
      (fun _ => FetchRejected "Failed to fetch") r in
  map text (st_messages s')
  = ["Hello";
     "Error: Failed to fetch. Please ensure LM Studio is running with gemma-3-12b model loaded at http://192.168.1.174:1234/v1/chat/completions."]
  ∧ map (fun c => map text (messages c)) (st_conversations s') = [["Hello"]].
Proof.
  intros r s'.
  destruct (network_failure_replaces_placeholder None None readJson v8NullRead
              r r 2000 2000 (fun _ => FetchRejected "Failed to fetch")
              "Failed to fetch")
    as (Hvisible & Hconvs & _); [reflexivity|reflexivity|].
  fold s' in Hvisible, Hconvs. rewrite Hvisible, Hconvs.
  vm_compute. split; reflexivity.
Defined.

Lemma read_failure_keeps_partial_text_witness :
  let r := setInputText "Hello" oneConversation in
  let reads := [Chunk 2001 (hiFrame +:+ String newline "");
                ReadError "network error"] in
  let s' :=
    handleSubmit None None readJson v8NullRead r 2000 2000
      (fun _ => FetchResponse 200 (Some reads)) r in
  map text (st_messages s')
  = ["Hello"; "Hi";
     "Error: network error. Please ensure LM Studio is running with gemma-3-12b model loaded at http://192.168.1.174:1234/v1/chat/completions."].
Proof.
  intros r reads s'.
  destruct (read_failure_keeps_partial_text None None readJson v8NullRead
              r r 2000 2000 (fun _ => FetchResponse 200 (Some reads))
              200 reads "network error")
    as (Hvisible & _); [reflexivity|reflexivity|reflexivity|reflexivity|].
  fold s' in Hvisible. rewrite Hvisible. vm_compute. reflexivity.
Defined.

Lemma unreadable_error_body_witness :
  httpErrorMessage readJson v8NullRead 502
    (Some [Chunk 1001 "<html>Bad Gateway</html>"])
  = "HTTP error! Status: 502. No additional error info".
Proof. by apply unreadable_error_body. Defined.

(** ** The sentinel *)

Section SentinelChunk.

Variable JSON_parse : string -> option json.

Lemma parsedFrames_sentinel (before after : list string) :
  forallb (fun line => negb (String.eqb line sentinelLine)) before = true →
  parsedFrames JSON_parse (before ++ sentinelLine :: after)
  = parsedFrames JSON_parse before.
Proof.
  induction before as [|line before IH]; intros Hbefore.
  - cbn [List.app parsedFrames].
    by rewrite (proj2 (classify_sentinel JSON_parse sentinelLine) eq_refl).
  - cbn [forallb] in Hbefore.
    apply andb_prop in Hbefore as [Hline%negb_true_iff Hbefore].
    rewrite <- app_comm_cons.
    rewrite (parsedFrames_cons_other JSON_parse line (before ++ _)) by done.
    rewrite (parsedFrames_cons_other JSON_parse line before) by done.
    by rewrite IH.
Qed.

(** X11.  The sentinel ends the reading of its chunk only.  The lines
    that follow [data: [DONE]] in the same chunk are not parsed; the
    chunks read afterwards are parsed as usual and their deltas are
    appended to the accumulated text. *)
Theorem sentinel_ends_only_its_chunk (r : State) (now : Z)
    (before after : list string) (rest : list Read) (l : Loop) :
  forallb noNewline (before ++ sentinelLine :: after) = true →
  forallb (fun line => negb (String.eqb line sentinelLine)) before = true →
  let reads := Chunk now (joinLines (before ++ sentinelLine :: after)) :: rest in
  receivedFrames JSON_parse reads
  = parsedFrames JSON_parse before ++ receivedFrames JSON_parse rest
  ∧ accumulatedText (fst (readLoop JSON_parse r reads l))
    = total (accumulatedText l)
        (deltasOf (parsedFrames JSON_parse before)
         ++ deltasOf (receivedFrames JSON_parse rest)).
Proof.
  intros Hwhole Hbefore reads.
  assert (receivedFrames JSON_parse reads
          = parsedFrames JSON_parse before ++ receivedFrames JSON_parse rest)
    as Hframes.
  { unfold reads. cbn [receivedFrames].
    rewrite splitLines_joinLines by done.
    rewrite <- app_assoc, <- app_comm_cons.
    by rewrite parsedFrames_sentinel. }
  split; [done|].
  destruct (readLoop_locals JSON_parse r reads l) as (-> & _ & _).
  rewrite Hframes. unfold deltasOf. by rewrite flat_map_app.
Qed.

End SentinelChunk.

Lemma sentinel_ends_only_its_chunk_witness :
  let s := setMessages (fun _ => [sampleUser "Hello"; streamingPlaceholder])
             initialState in
  let reads :=
    [Chunk 1001 (joinLines ([hiFrame] ++ sentinelLine :: [thereFrame]));
     Chunk 1002 (joinLines [thereFrame])] in
  accumulatedText (fst (readLoop readJson s reads (mkLoop "" s 0 [])))
  = "Hi there".
Proof.
  intros s reads.
  destruct (sentinel_ends_only_its_chunk readJson s 1001 [hiFrame] [thereFrame]
              [Chunk 1002 (joinLines [thereFrame])] (mkLoop "" s 0 []))
    as [_ Hacc]; [reflexivity|reflexivity|].
  unfold reads. rewrite Hacc. vm_compute. reflexivity.
Defined.

(** ** The typing indicator *)

Lemma isLastMessage_snoc (s : State) (base : list Message) (m : Message)
    (index : nat) :
  st_messages s = base ++ [m] →
  isLastMessage s index = bool_decide (index = length base).
Proof.
  intros Hs. unfold isLastMessage. rewrite Hs, length_app. simpl.
  destruct (Z.eqb_spec (Z.of_nat index)
              (Z.of_nat (length base + 1) - 1)) as [Heq|Hne].
  - rewrite bool_decide_eq_true_2; [done|lia].
  - rewrite bool_decide_eq_false_2; [done|lia].
Qed.

Section Indicator.

Variable env_LM_STUDIO_URL env_MODEL_NAME : option string.
Variable JSON_parse : string -> option json.
Variable nullReadMessage : string.

(** X16.  In the render that follows the synchronous part of a
    submission, the typing indicator is shown for the placeholder and for
    no other message.  In the render that follows the end of the
    exchange, whatever the network answered, no message shows the
    indicator or the cursor.  In no render does a message show both. *)
Theorem typing_indicator_during_exchange (r s : State) (now timerNow : Z)
    (fetch : Request -> FetchOutcome) :
  submittable r = true →
  let waiting := submitSync r now s in
  let ended :=
    handleSubmit env_LM_STUDIO_URL env_MODEL_NAME JSON_parse nullReadMessage
      r now timerNow fetch s in
  (∀ index message,
     st_messages waiting !! index = Some message →
     showTypingIndicator waiting message index
     = bool_decide (index = length (submittedBase r)))
  ∧ (∀ index message,
       showTypingIndicator ended message index = false
       ∧ showCursor ended message index = false)
  ∧ (∀ render index message,
       showTypingIndicator render message index
       && showCursor render message index = false).
Proof.
  intros Hguard waiting ended. split_and!.
  - intros index message Hlookup.
    pose proof (st_messages_submitSync r now s) as Hvisible.
    fold waiting in Hvisible.
    unfold showTypingIndicator.
    rewrite (isLastMessage_snoc waiting (submittedBase r) streamingPlaceholder)
      by done.
    assert (st_isStreaming waiting = true) as -> by done.
    destruct (decide (index = length (submittedBase r))) as [Hindex|Hindex].
    + rewrite Hvisible, Hindex, list_lookup_middle in Hlookup by done.
      injection Hlookup as <-.
      by rewrite (bool_decide_eq_true_2 (index = _)).
    + rewrite (bool_decide_eq_false_2 (index = _)) by done.
      by rewrite andb_false_r.
  - intros index message. unfold showTypingIndicator, showCursor.
    unfold ended, submittable in *.
    by rewrite (handleSubmit_idle env_LM_STUDIO_URL env_MODEL_NAME JSON_parse
                  nullReadMessage r now timerNow fetch s Hguard).
  - intros render index message. unfold showTypingIndicator, showCursor.
    destruct (nonEmpty (text message)); simpl;
      by rewrite ?andb_false_r.
Qed.

End Indicator.

Lemma typing_indicator_during_exchange_witness :
  let r := setInputText "Hello" oneConversation in
  showTypingIndicator (submitSync r 2000 r) streamingPlaceholder 1 = true
  ∧ showTypingIndicator (submitSync r 2000 r) (sampleUser "Hello") 0 = false.
Proof.
  intros r.
  destruct (typing_indicator_during_exchange None None readJson v8NullRead
              r r 2000 2000 (fun _ => modelNotLoaded))
    as (Hwaiting & _ & _); [reflexivity|].
  split; rewrite Hwaiting by reflexivity; reflexivity.
Defined.

(** ** The dark mode preference *)

Lemma loadDarkMode_boolText (b : bool) : loadDarkMode (Some (boolText b)) = b.
Proof. by destruct b. Qed.

(** X15.  After mounting and any number of toggles, the store holds the
    text of the current preference and the document carries the class
    exactly when the preference is dark; mounting again from that store
    gives the same preference.  The preference is the loaded one after
    an even number of toggles and its opposite after an odd number;
    without stored text the loaded preference is dark. *)
Theorem dark_mode_round_trip (savedDarkMode : option string) (toggles : nat) :
  let th := Nat.iter toggles toggleDarkMode (mountTheme savedDarkMode) in
  ls_darkMode th = Some (boolText (isDarkMode th))
  ∧ darkClass th = isDarkMode th
  ∧ mountTheme (ls_darkMode th) = th
  ∧ isDarkMode th
    = (if Nat.even toggles
       then loadDarkMode savedDarkMode
       else negb (loadDarkMode savedDarkMode))
  ∧ loadDarkMode None = true.
Proof.
  induction toggles as [|n IH].
  - cbn [Nat.iter Nat.even]. unfold mountTheme.
    destruct (loadDarkMode savedDarkMode); done.
  - cbn zeta in *. rewrite Nat.iter_succ, Nat.even_succ, <- Nat.negb_even.
    destruct IH as (Hstore & Hclass & Hmount & Hvalue & _).
    set (th := Nat.iter n toggleDarkMode (mountTheme savedDarkMode)) in *.
    unfold toggleDarkMode, darkModeEffect.
    cbn [ls_darkMode isDarkMode darkClass]. rewrite Hvalue.
    split_and!; try done.
    + unfold mountTheme. rewrite loadDarkMode_boolText.
      by destruct (Nat.even n), (loadDarkMode savedDarkMode).
    + by destruct (Nat.even n), (loadDarkMode savedDarkMode).
Qed.

(** ** The image of a turn *)

Lemma imagesOf_messagesForApi (r : State) :
  imagesOf (messagesForApi r)
  = match st_selectedImage r with
    | Some url => if nonEmpty url then [url] else []
    | None => []
    end.
Proof.
  unfold messagesForApi. rewrite imagesOf_app.
  change (imagesOf (map _ (st_messages r)))
    with (imagesOf
            (map (fun m => mkApiMessage (roleOf m) (PlainText (text m)))
               (st_messages r))).
  rewrite imagesOf_history. unfold imagesOf. simpl. rewrite app_nil_r.
  unfold currentMessageContent.
  destruct (st_selectedImage r) as [url|]; [|done].
  destruct (nonEmpty url); [|done].
  by destruct (nonEmpty (trim (st_inputText r))).
Qed.

Lemma applyInput_paired (s : State) (a : InputAction) :
  pickedUrlNonEmpty a = true → imagePaired s → imagePaired (applyInput s a).
Proof.
  unfold imagePaired.
  destruct a as [value|result objectUrl|]; simpl; intros Hurl Hs; try done.
  unfold handleImageChange. destruct (truthy result) eqn:Hresult; [|done].
  simpl. by rewrite Hresult.
Qed.

(** X19.  From a render in which image and preview go together, after
    any typing, picking and removing of images, they still go together;
    so the user message of a submission shows a preview exactly when the
    request carries an image.  The synchronous part of the submission
    clears both. *)
Theorem preview_shown_iff_image_sent (s0 : State) (actions : list InputAction)
    (now : Z) (s : State) :
  imagePaired s0 →
  forallb pickedUrlNonEmpty actions = true →
  let r := foldl applyInput s0 actions in
  imagePaired r
  ∧ (imageUrl (userMessage r) ≠ None ↔ imagesOf (messagesForApi r) ≠ [])
  ∧ st_selectedImage (submitSync r now s) = None
  ∧ st_imagePreviewUrl (submitSync r now s) = None.
Proof.
  intros Hs0 Hactions r.
  assert (imagePaired r) as Hpaired.
  { unfold r. clear r. revert s0 Hs0.
    induction actions as [|a actions IH]; intros s0 Hs0; [done|].
    cbn [forallb] in Hactions. apply andb_prop in Hactions as [Ha Hrest].
    cbn [foldl]. apply IH; [done|]. by apply applyInput_paired. }
  split_and!; [done| | |].
  - rewrite imagesOf_messagesForApi. unfold userMessage. cbn [imageUrl].
    unfold imagePaired in Hpaired. rewrite <- Hpaired.
    assert (None ≠ (None : option string) ↔ [] ≠ ([] : list string)) as Hnone
      by (split; intros Hne; exfalso; by apply Hne).
    destruct (st_selectedImage r) as [url|]; [|done].
    cbn [truthy] in *. fold (nonEmpty url) in *.
    destruct (nonEmpty url) eqn:Hurl; [|done].
    split; [done|]. intros _.
    destruct (st_imagePreviewUrl r); done.
  - unfold submitSync. by destruct (negb _).
  - unfold submitSync. by destruct (negb _).
Qed.

Lemma preview_shown_iff_image_sent_witness :
  let r :=
    foldl applyInput initialState
      [TypeText "look";
       PickImage (Some "data:image/png;base64,AAAA") "blob:http://localhost/1"] in
  imageUrl (userMessage r) = Some "blob:http://localhost/1"
  ∧ imagesOf (messagesForApi r) ≠ [].
Proof.
  intros r. split; [reflexivity|].
  apply (preview_shown_iff_image_sent initialState
           [TypeText "look";
            PickImage (Some "data:image/png;base64,AAAA")
              "blob:http://localhost/1"] 0 initialState);
    [reflexivity|reflexivity|done].
Defined.

(** ** The end of an exchange *)

Lemma last_replaceOrPush (e : Message) (l : list Message) :
  last (replaceOrPush e l) = Some e.
Proof.
  induction l as [|m l _] using rev_ind; [done|].
  unfold replaceOrPush. rewrite lookup_last_snoc.
  destruct (String.eqb (text m) ""); [rewrite insert_last_snoc|];
    apply last_snoc.
Qed.

Section ExchangeEnd.

Variable env_LM_STUDIO_URL env_MODEL_NAME : option string.
Variable JSON_parse : string -> option json.
Variable nullReadMessage : string.

(** X18.  Every submission that passes the guard of line 155, whatever
    the network answers (a rejection, an error status, a body without
    reader, a body read to its end or up to a rejected read), ends with
    streaming off and with a visible list whose last message is an
    assistant message: the reply accumulated so far or the error message.
    The input text is still the one the synchronous part left, which is
    empty, as is the selected image it left. *)
Theorem exchange_ends_with_assistant_message (r : State) (now timerNow : Z)
    (fetch : Request -> FetchOutcome) (s : State) :
  submittable r = true →
  let s' :=
    handleSubmit env_LM_STUDIO_URL env_MODEL_NAME JSON_parse nullReadMessage
      r now timerNow fetch s in
  st_isStreaming s' = false
  ∧ (∃ m, last (st_messages s') = Some m ∧ sender m = llm)
  ∧ st_inputText s' = st_inputText (submitSync r now s)
  ∧ st_inputText (submitSync r now s) = ""
  ∧ st_selectedImage (submitSync r now s) = None.
Proof.
  intros Hguard s'. unfold submittable in Hguard.
  split; [by apply handleSubmit_idle|].
  assert (st_inputText (submitSync r now s) = ""
          ∧ st_selectedImage (submitSync r now s) = None) as [Hinput Himage].
  { unfold submitSync. by destruct (negb _). }
  assert (∀ (reads : list Read) (l : Loop),
            st_inputText (app (fst (readLoop JSON_parse r reads l)))
            = st_inputText (app l)) as Hloopinput.
  { induction reads as [|[t chunk|message] rest IH]; intros l; simpl;
      [done| |done].
    rewrite IH. clear IH. revert l.
    induction (splitLines chunk) as [|line lines IH]; intros l; [done|].
    rewrite forLines_cons.
    destruct (classify JSON_parse line) as [| | | |d];
      [apply IH|done|apply (IH (logError l))|apply IH|].
    rewrite IH. cbn [app]. unfold processChunk.
    destruct (0 <? length _)%nat; [|done].
    cbn [st_inputText setMessages]. unfold updateCurrentConversation.
    by destruct (truthy (st_currentConversationId r)). }
  pose proof (st_messages_submitSync r now s) as Hvisible.
  unfold s', handleSubmit. rewrite guard_passes, submitTimer_noop by done.
  unfold afterFetch.
  destruct (fetch _) as [message|status body].
  { split_and!; try done. eexists. split; [apply last_replaceOrPush|done]. }
  destruct (responseOk status).
  2:{ split_and!; try done. eexists. split; [apply last_replaceOrPush|done]. }
  destruct body as [reads|].
  2:{ split_and!; try done. exists streamingPlaceholder.
      cbn [st_messages setIsStreaming]. by rewrite Hvisible, last_snoc. }
  pose proof (readLoop_lastHoldsText JSON_parse r (submittedBase r) reads
                (mkLoop "" (submitSync r now s) 0 []) Hvisible) as Hlast.
  pose proof (Hloopinput reads (mkLoop "" (submitSync r now s) 0 []))
    as Hkeep.
  destruct (readLoop _ _ _ _) as [l [message|]]; cbn [fst app] in *.
  - split_and!; try done. eexists. split; [apply last_replaceOrPush|done].
  - split_and!; try done. unfold lastHoldsText in Hlast.
    eexists. cbn [st_messages setIsStreaming]. rewrite Hlast, last_snoc.
    by split.
Qed.

End ExchangeEnd.

Lemma exchange_ends_with_assistant_message_witness :
  let r := setInputText "Hello" oneConversation in
  st_isStreaming
    (handleSubmit None None readJson v8NullRead r 2000 2000
       (fun _ => FetchResponse 204 None) r)
  = false.
Proof.
  intros r.
  by destruct (exchange_ends_with_assistant_message None None readJson
                 v8NullRead r 2000 2000 (fun _ => FetchResponse 204 None) r)
    as [Hidle _].
Defined.
